(** * Guard system: face recognition, speech, dialogue and the main event loop

    A shallow embedding of the Python sources

      - [face_recognition_system.py]  ([load_known_faces], [recognize_face])
      - [llm.py]   ([IntruderConversationManager])
      - [tts.py]   ([text_to_speech], [is_tts_speaking])
      - [asr.py]   ([ASRListener])
      - [main.py]  ([recognize_faces_worker], [run_live_recognition])

    Conventions.  Python [str] is [string] (ASCII); [queue.Queue] is a record
    of a capacity and a FIFO list; [time.time()] readings are rationals (the
    rounding of the float clock is abstracted away); calls into third-party
    libraries (face embedding, speech recognition, synthesis, playback, text
    generation) are parameters or per-call outcomes supplied by the
    environment.  Every function with side effects returns the events it
    emits (printed lines, speech requests, ...) next to its new state. *)

From Stdlib Require Import List String Ascii Bool Arith ZArith QArith Lia Lqa.
From Stdlib Require Import DecimalString.
Import ListNotations.

Local Open Scope string_scope.
Local Open Scope list_scope.

(* ================================================================== *)
(** ** Python strings *)

Module PyStr.

(** [c.lower()] on an ASCII character. *)
Definition lower_ascii (c : ascii) : ascii :=
  let n := nat_of_ascii c in
  if (65 <=? n)%nat && (n <=? 90)%nat then ascii_of_nat (n + 32) else c.

(** [s.lower()] *)
Fixpoint lower (s : string) : string :=
  match s with
  | EmptyString => EmptyString
  | String c s' => String (lower_ascii c) (lower s')
  end.

(** [sub in s] *)
Fixpoint contains (sub s : string) : bool :=
  if String.prefix sub s then true
  else match s with
       | EmptyString => false
       | String _ s' => contains sub s'
       end.

(** [any(word in s for word in words)] *)
Definition any_in (words : list string) (s : string) : bool :=
  existsb (fun word => contains word s) words.

(** [c.isspace()] on an ASCII character. *)
Definition isspace (c : ascii) : bool :=
  let n := nat_of_ascii c in
  ((9 <=? n)%nat && (n <=? 13)%nat) || ((28 <=? n)%nat && (n <=? 32)%nat).

Fixpoint lstrip (s : string) : string :=
  match s with
  | EmptyString => EmptyString
  | String c s' => if isspace c then lstrip s' else s
  end.

Fixpoint rev_onto (s acc : string) : string :=
  match s with
  | EmptyString => acc
  | String c s' => rev_onto s' (String c acc)
  end.

Definition rev (s : string) : string := rev_onto s EmptyString.

Definition rstrip (s : string) : string := rev (lstrip (rev s)).

(** [s.strip()] *)
Definition strip (s : string) : string := rstrip (lstrip s).

(** [s.split(sep)] for a non-empty separator: a left-to-right scan; [skip]
    counts the characters of a separator just matched that are still to be
    passed over, [cur] is the current piece, reversed. *)
Fixpoint split_from (sep : string) (skip : nat) (cur : string) (s : string)
  : list string :=
  match s with
  | EmptyString => [rev cur]
  | String c s' =>
      match skip with
      | S k => split_from sep k cur s'
      | O =>
          if String.prefix sep s
          then rev cur :: split_from sep (String.length sep - 1) EmptyString s'
          else split_from sep 0 (String c cur) s'
      end
  end.

Definition split (sep s : string) : list string :=
  split_from sep 0 EmptyString s.

(** [l[-1]] and [l[0]] on the (never empty) result of [split]. *)
Definition last_piece (l : list string) : string := List.last l EmptyString.
Definition first_piece (l : list string) : string := List.hd EmptyString l.

(** [c * n] *)
Fixpoint repeat (c : ascii) (n : nat) : string :=
  match n with
  | O => EmptyString
  | S k => String c (repeat c k)
  end.

(** [str(n)] for a natural number. *)
Definition of_nat (n : nat) : string := NilEmpty.string_of_uint (Nat.to_uint n).

Definition newline : string := String (ascii_of_nat 10) EmptyString.

End PyStr.

(* ================================================================== *)
(** ** [queue.Queue] *)

Module PyQueue.

(** A queue is its [maxsize] and its items, oldest first.  As in Python, a
    [maxsize] that is not positive means the queue is unbounded. *)
Record Queue (A : Type) : Type := mkQueue {
  maxsize : Z;
  items : list A
}.
Arguments mkQueue {A} _ _.
Arguments maxsize {A} _.
Arguments items {A} _.

(** The outcome of an operation that may wait: it completes, or the caller
    is suspended until another thread changes the queue. *)
Inductive blocking (A : Type) : Type :=
| Ready (a : A)
| WouldBlock.
Arguments Ready {A} _.
Arguments WouldBlock {A}.

(** The outcome of a [_nowait] operation. *)
Inductive nowait (A : Type) : Type :=
| Got (a : A)
| RaiseEmpty.
Arguments Got {A} _.
Arguments RaiseEmpty {A}.

Section Ops.
Context {A : Type}.

(** [Queue(maxsize=n)]; [Queue()] is [new 0]. *)
Definition new (n : Z) : Queue A := mkQueue n [].

Definition qsize (q : Queue A) : Z := Z.of_nat (List.length (items q)).

(** [q.empty()] *)
Definition empty (q : Queue A) : bool := (qsize q =? 0)%Z.

(** [q.full()]: [0 < maxsize <= qsize] *)
Definition full (q : Queue A) : bool :=
  (0 <? maxsize q)%Z && (maxsize q <=? qsize q)%Z.

(** [q.put(x)]: waits while the queue is full. *)
Definition put (x : A) (q : Queue A) : blocking (Queue A) :=
  if full q then WouldBlock
  else Ready (mkQueue (maxsize q) (items q ++ [x])).

(** [q.get()]: waits while the queue is empty. *)
Definition get (q : Queue A) : blocking (A * Queue A) :=
  match items q with
  | [] => WouldBlock
  | x :: rest => Ready (x, mkQueue (maxsize q) rest)
  end.

(** [q.get_nowait()] *)
Definition get_nowait (q : Queue A) : nowait (A * Queue A) :=
  match items q with
  | [] => RaiseEmpty
  | x :: rest => Got (x, mkQueue (maxsize q) rest)
  end.

End Ops.

End PyQueue.

(* ================================================================== *)
(** ** Observable events *)

(** The library calls [tts.text_to_speech] makes, in the order of the source. *)
Inductive tts_stage : Type :=
| MakeTempFile     (* tempfile.NamedTemporaryFile(delete=False, suffix='.mp3') *)
| Synthesize       (* gTTS(text=text, lang='en', slow=False) *)
| SaveAudio        (* tts.save(temp_file) *)
| LoadAudio        (* pygame.mixer.music.load(temp_file) *)
| PlayAudio.       (* pygame.mixer.music.play() *)

(** Recorded sound as the speech library hands it over (raw frame bytes). *)
Definition AudioData : Type := string.

(** What the program does to the outside world, in order.  Printed lines
    carry the text of the source with the ANSI colour codes and the
    pictographs left out. *)
Inductive event : Type :=
| Print (line : string)             (* print(...) *)
| SpeakAsync (text : string)        (* tts.text_to_speech_async(text) *)
| Sleep (seconds : Q)               (* time.sleep(...) *)
| Imshow (labels : list string)     (* boxes and names drawn, cv2.imshow *)
| DestroyWindow                     (* cv2.destroyWindow('Video') *)
| SetSpeaking (b : bool)            (* store to tts.is_speaking under the lock *)
| Called (st : tts_stage)           (* the library call returned *)
| Raised (st : tts_stage)           (* the library call raised *)
| RemoveFile                        (* os.remove(temp_file) *)
| SpawnCleanup                      (* threading.Thread(target=cleanup).start() *)
| Listen                            (* recognizer.listen(source, ...) *)
| RecognizeGoogle (audio : AudioData). (* recognizer.recognize_google(audio) *)

(* ================================================================== *)
(** ** llm.py: [IntruderConversationManager] *)

Module LLM.

Local Open Scope string_scope.

Inductive role : Type := intruder | assistant.

Definition role_eqb (a b : role) : bool :=
  match a, b with
  | intruder, intruder | assistant, assistant => true
  | _, _ => false
  end.

Record message : Type := mkMessage {
  msg_role : role;
  content : string
}.

(** What one call of the text-generation pipeline comes to: the generated
    text (the prompt included), or an exception. *)
Inductive generation : Type :=
| Generated (full_response : string)
| GenerationFailed (e : string).

(** [self.generator] is either [None] or a loaded text-generation
    pipeline; what one call of the pipeline yields on a prompt is supplied
    by the caller as [run]. *)
Record Manager : Type := mkManager {
  conversation_active : bool;
  conversation_history : list message;
  has_generator : bool
}.

Definition system_prompt : string :=
  "You are a security AI assistant. An unknown person has been detected in a restricted area. "
  ++ PyStr.newline ++ "Your goal is to:"
  ++ PyStr.newline ++ "1. Identify who they are and why they're there"
  ++ PyStr.newline ++ "2. Determine if they have authorization"
  ++ PyStr.newline ++ "3. Keep them engaged while security is notified"
  ++ PyStr.newline ++ "4. Be professional but firm"
  ++ PyStr.newline
  ++ PyStr.newline
  ++ "Keep responses SHORT (1-2 sentences max) and conversational. Be direct and clear.".

(** [__init__] with [_initialize_model]: [available] is
    [TRANSFORMERS_AVAILABLE]; [load_error] is the message of the exception
    [pipeline(...)] raises, if it raises. *)
Definition init (model_name : string) (available : bool)
    (load_error : option string) : Manager * list event :=
  if negb available then
    (mkManager false [] false,
     [Print "LLM: Transformers not available. Using fallback responses."])
  else
    match load_error with
    | None =>
        (mkManager false [] true,
         [Print ("LLM: Loading model '" ++ model_name ++ "'...");
          Print "LLM: Model loaded successfully!"])
    | Some e =>
        (mkManager false [] false,
         [Print ("LLM: Loading model '" ++ model_name ++ "'...");
          Print ("LLM: Error loading model: " ++ e);
          Print "LLM: Falling back to rule-based responses."])
    end.

Definition turn_count (m : Manager) : nat :=
  List.length
    (filter (fun x => role_eqb (msg_role x) intruder) (conversation_history m)).

Definition responses : list string :=
  [ "I need you to identify yourself. Who are you?";
    "This area is under surveillance. Why are you here?";
    "Please state your purpose for being in this location.";
    "Security has been alerted. Please remain where you are.";
    "I'm waiting for your response. Why are you in this restricted area?" ].

Definition _get_fallback_response (m : Manager) (intruder_text : string)
  : string :=
  let intruder_lower := PyStr.lower intruder_text in
  let turn_count := turn_count m in
  if (turn_count =? 0)%nat then
    "Hello, I've detected your presence. Can you please identify yourself?"
  else if PyStr.any_in ["hello"; "hi"; "hey"] intruder_lower then
    "Hello. This is a restricted area. Who are you and why are you here?"
  else if PyStr.any_in ["name is"; "i am"; "i'm"; "my name"] intruder_lower then
    "I see. Do you have authorization to be in this area? Can you provide a code or badge number?"
  else if PyStr.any_in ["authorized"; "permission"; "allowed"; "badge"]
            intruder_lower then
    "Please wait here while I verify your credentials. Security has been notified."
  else if PyStr.any_in ["no"; "none"; "leave me"; "mind your"] intruder_lower then
    "I must inform you that this area is under surveillance. Please comply or leave immediately."
  else if PyStr.any_in ["what"; "where"; "who"; "confused"; "lost"]
            intruder_lower then
    "You are in a restricted area. If you are lost, please leave the way you came and contact security."
  else
    nth (Nat.min (turn_count - 1) (List.length responses - 1)) responses "".

(** The prompt built from the last six history entries. *)
Definition conversation_text (history : list message) : string :=
  fold_left
    (fun text msg =>
       match msg_role msg with
       | intruder => text ++ "Intruder: " ++ content msg ++ PyStr.newline
       | assistant => text ++ "Security AI: " ++ content msg ++ PyStr.newline
       end)
    (skipn (List.length history - 6) history)
    (system_prompt ++ PyStr.newline ++ PyStr.newline)
  ++ "Security AI:".

Definition _generate_response (run : string -> generation)
    (m : Manager) (intruder_text : string) : string * Manager * list event :=
  let m1 := mkManager (conversation_active m)
              (conversation_history m ++ [mkMessage intruder intruder_text])%list
              (has_generator m) in
  let '(response, out) :=
    if negb (has_generator m1) then (_get_fallback_response m1 intruder_text, [])
    else
      match run (conversation_text (conversation_history m1)) with
      | Generated full_response =>
          let response :=
            PyStr.strip (PyStr.last_piece (PyStr.split "Security AI:" full_response)) in
          let response :=
            PyStr.strip (PyStr.first_piece (PyStr.split PyStr.newline response)) in
          if (String.length response =? 0)%nat
             || (200 <? String.length response)%nat
          then (_get_fallback_response m1 intruder_text, [])
          else (response, [])
      | GenerationFailed e =>
          (_get_fallback_response m1 intruder_text,
           [Print ("LLM: Error generating response: " ++ e)])
      end in
  (response,
   mkManager (conversation_active m1)
     (conversation_history m1 ++ [mkMessage assistant response])%list
     (has_generator m1),
   out).

Definition opening : string :=
  "Attention! I have detected an unknown person. Please identify yourself immediately.".

Definition start_conversation (m : Manager) : string * Manager * list event :=
  (opening,
   mkManager true [mkMessage assistant opening] (has_generator m),
   [Print "LLM: Started conversation with intruder"]).

Definition process_intruder_response (run : string -> generation)
    (m : Manager) (intruder_text : string) : string * Manager * list event :=
  if negb (conversation_active m) then start_conversation m
  else
    let '(response, m', out) := _generate_response run m intruder_text in
    (response, m',
     ([Print ("LLM: Processing intruder response: '" ++ intruder_text ++ "'")]
      ++ out
      ++ [Print ("LLM: Generated response: '" ++ response ++ "'")])%list).

Definition end_conversation (m : Manager) : Manager * list event :=
  (mkManager false (conversation_history m) (has_generator m),
   [Print ("LLM: Ended conversation (Total exchanges: "
           ++ PyStr.of_nat (List.length (conversation_history m) / 2) ++ ")")]).

Definition is_conversation_active (m : Manager) : bool := conversation_active m.

Fixpoint summary_lines (i : nat) (history : list message) : string :=
  match history with
  | [] => ""
  | msg :: rest =>
      PyStr.of_nat i ++ ". "
      ++ (match msg_role msg with
          | assistant => "Security AI"
          | intruder => "Intruder"
          end)
      ++ ": " ++ content msg ++ PyStr.newline
      ++ summary_lines (S i) rest
  end.

Definition get_conversation_summary (m : Manager) : string :=
  match conversation_history m with
  | [] => "No conversation history."
  | _ => "Conversation Summary:" ++ PyStr.newline
         ++ summary_lines 1 (conversation_history m)
  end.

(** A conversation after its start: one [process_intruder_response] per
    utterance, each with what the generator does on that call; the replies
    are collected. *)
Fixpoint converse (turns : list ((string -> generation) * string))
    (m : Manager) : Manager * list string :=
  match turns with
  | [] => (m, [])
  | (run, intruder_text) :: rest =>
      let '(reply, m1, _) := process_intruder_response run m intruder_text in
      let '(m2, replies) := converse rest m1 in
      (m2, reply :: replies)
  end.

(** The history entries of a sequence of exchanges: what the intruder said
    and what was answered, in turn. *)
Fixpoint exchanges (texts replies : list string) : list message :=
  match texts, replies with
  | text :: texts', reply :: replies' =>
      mkMessage intruder text :: mkMessage assistant reply
      :: exchanges texts' replies'
  | _, _ => []
  end.

(** The first reply of the rule-based fallback, for a history without any
    intruder entry. *)
Definition first_turn_greeting : string :=
  "Hello, I've detected your presence. Can you please identify yourself?".

End LLM.

(* ================================================================== *)
(** ** tts.py *)

Module TTS.

Local Open Scope string_scope.

(** What the environment does during one call of [text_to_speech]: which
    library call raises, if any, and with what message; how many times
    [get_busy()] answers true before playback ends.  ([os.remove] is tried
    and a failure of it is passed over in silence.) *)
Record call_env : Type := mkCallEnv {
  fails : option (tts_stage * string);
  busy_polls : nat
}.

Definition stages : list tts_stage :=
  [MakeTempFile; Synthesize; SaveAudio; LoadAudio; PlayAudio].

Definition stage_eqb (a b : tts_stage) : bool :=
  match a, b with
  | MakeTempFile, MakeTempFile | Synthesize, Synthesize
  | SaveAudio, SaveAudio | LoadAudio, LoadAudio | PlayAudio, PlayAudio => true
  | _, _ => false
  end.

(** The library calls of the [try] body up to the one that raises. *)
Fixpoint run_stages (todo : list tts_stage) (failing : option tts_stage)
  : list event * bool :=
  match todo with
  | [] => ([], true)
  | st :: rest =>
      match failing with
      | Some f => if stage_eqb st f then ([Raised st], false)
                  else let '(evs, ok) := run_stages rest failing in
                       (Called st :: evs, ok)
      | None => let '(evs, ok) := run_stages rest failing in
                (Called st :: evs, ok)
      end
  end.

(** [while pygame.mixer.music.get_busy(): time.sleep(0.1)] *)
Definition wait_while_busy (polls : nat) : list event :=
  List.repeat (Sleep (1 # 10)) polls.

(** [is_tts_speaking()] *)
Definition is_tts_speaking (is_speaking : bool) : bool := is_speaking.

(** [text_to_speech(text, blocking)]: the returned boolean, the value of the
    global [is_speaking] afterwards, and the events.  The flag is stored
    before the first library call; the [except] clause prints and returns
    [False] without touching it. *)
Definition text_to_speech (env : call_env) (text : string) (blocking : bool)
    (is_speaking : bool) : bool * bool * list event :=
  let pre := [Print ("TTS module: Synthesizing speech for text: '" ++ text ++ "'");
              SetSpeaking true] in
  let '(calls, ok) := run_stages stages (option_map fst (fails env)) in
  if negb ok then
    (false, true,
     (pre ++ calls
      ++ [Print ("TTS Error: "
                 ++ match fails env with Some (_, e) => e | None => "" end)])%list)
  else if blocking then
    (true, false,
     (pre ++ calls ++ wait_while_busy (busy_polls env)
      ++ [SetSpeaking false; RemoveFile])%list)
  else
    (true, true, (pre ++ calls ++ [SpawnCleanup])%list).

(** The body of the [cleanup] thread of the non-blocking mode.  Its
    assignment [is_speaking = False] is to a name local to [cleanup] (the
    [global] declaration of the enclosing function does not extend to the
    nested one), so the global flag is returned unchanged. *)
Definition cleanup (env : call_env) (is_speaking : bool) : bool * list event :=
  (is_speaking,
   (wait_while_busy (busy_polls env) ++ [Sleep 1; RemoveFile])%list).

(** [text_to_speech_async(text)]: starts a daemon thread that runs
    [text_to_speech(text, blocking=True)] and returns [True] at once. *)
Definition text_to_speech_async (text : string) : bool * list event :=
  (true, [SpeakAsync text]).

Definition speak_thread (env : call_env) (text : string) (is_speaking : bool)
  : bool * bool * list event :=
  text_to_speech env text true is_speaking.

End TTS.

(* ================================================================== *)
(** ** asr.py: [ASRListener] *)

Module ASR.

Import PyQueue.
Local Open Scope string_scope.

Record ASRListener : Type := mkListener {
  listening : bool;
  text_queue : Queue string
}.

(** [__init__]: [self.text_queue = queue.Queue()], no [maxsize]. *)
Definition init : ASRListener * list event :=
  (mkListener false (new 0),
   [Print "ASR: Calibrating microphone for ambient noise...";
    Print "ASR: Ready to listen!"]).

(** [with self.microphone as source: audio = self.recognizer.listen(...)] *)
Inductive listen_outcome : Type :=
| Heard (audio : AudioData)
| WaitTimeout                       (* sr.WaitTimeoutError *)
| MicrophoneError (e : string)      (* entering the microphone raised *)
| ListenError (e : string).         (* listen raised another exception *)

(** [self.recognizer.recognize_google(audio)] *)
Inductive recognize_outcome : Type :=
| Recognized (text : string)
| UnknownValue                      (* sr.UnknownValueError *)
| RequestError (e : string)         (* sr.RequestError *)
| RecognizeError (e : string).      (* any other exception *)

(** What the environment does during one pass of the worker loop:
    [tts_speaking] is [None] when importing [tts] raises [ImportError],
    otherwise the answer of [is_tts_speaking()]; [recognize] gives the
    outcome of the recognition service for an audio clip. *)
Record pass_env : Type := mkPassEnv {
  tts_speaking : option bool;
  heard : listen_outcome;
  recognize : AudioData -> recognize_outcome
}.

Definition error_in_loop (e : string) : list event :=
  [Print ("ASR: Error in listening loop: " ++ e); Sleep 1].

(** One pass of the body of [while self.listening:] in [_listen_worker]. *)
Definition _listen_worker_pass (env : pass_env) (l : ASRListener)
  : blocking (ASRListener * list event) :=
  match tts_speaking env with
  | Some true =>
      Ready (l, [Print "ASR: Pausing (TTS is speaking)..."; Sleep (1 # 2)])
  | _ =>
      match heard env with
      | MicrophoneError e => Ready (l, error_in_loop e)
      | WaitTimeout => Ready (l, [Print "ASR: Listening..."; Listen])
      | ListenError e =>
          Ready (l, ([Print "ASR: Listening..."; Listen] ++ error_in_loop e)%list)
      | Heard audio =>
          let pre := [Print "ASR: Listening..."; Listen;
                      Print "ASR: Processing audio..."; RecognizeGoogle audio] in
          match recognize env audio with
          | Recognized text =>
              match put text (text_queue l) with
              | Ready q =>
                  Ready (mkListener (listening l) q,
                         (pre ++ [Print ("ASR: Recognized: '" ++ text ++ "'")])%list)
              | WouldBlock => WouldBlock
              end
          | UnknownValue =>
              Ready (l, (pre ++ [Print "ASR: Could not understand audio"])%list)
          | RequestError e =>
              Ready (l, (pre ++ [Print ("ASR: Could not request results; " ++ e)])%list)
          | RecognizeError e => Ready (l, (pre ++ error_in_loop e)%list)
          end
      end
  end.

(** [_listen_worker]: passes are made as long as [self.listening] holds; one
    environment per pass. *)
Fixpoint _listen_worker (envs : list pass_env) (l : ASRListener)
  : blocking (ASRListener * list event) :=
  match envs with
  | [] => Ready (l, [])
  | env :: rest =>
      if negb (listening l) then Ready (l, [])
      else
        match _listen_worker_pass env l with
        | WouldBlock => WouldBlock
        | Ready (l1, evs1) =>
            match _listen_worker rest l1 with
            | WouldBlock => WouldBlock
            | Ready (l2, evs2) => Ready (l2, (evs1 ++ evs2)%list)
            end
        end
  end.

Definition start_listening (l : ASRListener) : ASRListener * list event :=
  if negb (listening l)
  then (mkListener true (text_queue l), [Print "ASR: Started listening in background"])
  else (l, []).

Definition stop_listening (l : ASRListener) : ASRListener * list event :=
  if listening l
  then (mkListener false (text_queue l), [Print "ASR: Stopped listening"])
  else (l, []).

(** [get_text]: [get_nowait], with [queue.Empty] turned into [None]. *)
Definition get_text (l : ASRListener) : option string * ASRListener :=
  match get_nowait (text_queue l) with
  | Got (text, q) => (Some text, mkListener (listening l) q)
  | RaiseEmpty => (None, l)
  end.

Definition has_text (l : ASRListener) : bool := negb (empty (text_queue l)).

(** The line the worker prints for a text it has recognized. *)
Definition recognized_line (text : string) : event :=
  Print ("ASR: Recognized: '" ++ text ++ "'").

(** [n] calls of [get_text] in a row, as a polling consumer makes them. *)
Fixpoint drain (n : nat) (l : ASRListener) : list (option string) * ASRListener :=
  match n with
  | O => ([], l)
  | S k =>
      let '(text, l1) := get_text l in
      let '(texts, l2) := drain k l1 in
      (text :: texts, l2)
  end.

(** What [recognize_speech_once] comes to. *)
Inductive once_result : Type :=
| Returns (text : option string)
| Raises (e : string).

(** [recognize_speech_once()]: the [try] encloses [listen] and
    [recognize_google] and has handlers for the three exceptions of the
    speech library only; entering the microphone is outside it. *)
Definition recognize_speech_once (heard : listen_outcome)
    (recognize : AudioData -> recognize_outcome) : once_result * list event :=
  let pre := [Print "Adjusting for ambient noise... Please wait.";
              Print "Listening... Speak now!"] in
  match heard with
  | MicrophoneError e => (Raises e, pre)
  | WaitTimeout =>
      (Returns None,
       (pre ++ [Listen; Print "Listening timed out. No speech detected."])%list)
  | ListenError e => (Raises e, (pre ++ [Listen])%list)
  | Heard audio =>
      let pre := (pre ++ [Listen; Print "Processing audio..."; RecognizeGoogle audio])%list in
      match recognize audio with
      | Recognized text =>
          (Returns (Some text), (pre ++ [Print ("You said: " ++ text)])%list)
      | UnknownValue =>
          (Returns None, (pre ++ [Print "Could not understand the audio."])%list)
      | RequestError e =>
          (Returns None,
           (pre ++ [Print ("Could not request results from Google Speech Recognition service; " ++ e)])%list)
      | RecognizeError e => (Raises e, pre)
      end
  end.

End ASR.

(* ================================================================== *)
(** ** face_recognition_system.py *)

Module FaceRecognition.

Local Open Scope string_scope.

(** A Python [dict] with string keys: an association list in insertion
    order without repeated keys. *)
Definition dict (V : Type) : Type := list (string * V).

(** [d[k] = v] *)
Fixpoint dict_set {V : Type} (k : string) (v : V) (d : dict V) : dict V :=
  match d with
  | [] => [(k, v)]
  | (k', v') :: rest =>
      if String.eqb k k' then (k, v) :: rest else (k', v') :: dict_set k v rest
  end.

Definition keys {V : Type} (d : dict V) : list string := map fst d.

Fixpoint get {V : Type} (k : string) (d : dict V) : option V :=
  match d with
  | [] => None
  | (k', v) :: rest => if String.eqb k k' then Some v else get k rest
  end.

(** [os.path.join(a, b)] for a relative [b]. *)
Definition path_join (a b : string) : string := a ++ "/" ++ b.

(** [os.path.basename(p)] *)
Definition basename (p : string) : string :=
  PyStr.last_piece (PyStr.split "/" p).

(** The outcome of [face_recognition.load_image_file(path)]. *)
Inductive load_result (Image : Type) : Type :=
| Loaded (image : Image)
| FileNotFound (e : string)     (* FileNotFoundError *)
| LoadFailed (e : string).      (* any other exception *)
Arguments Loaded {Image} _.
Arguments FileNotFound {Image} _.
Arguments LoadFailed {Image} _.

(** The outcome of [face_recognition.face_encodings(image)]. *)
Inductive encode_result (Encoding : Type) : Type :=
| Encodings (found : list Encoding)
| EncodeFailed (e : string).
Arguments Encodings {Encoding} _.
Arguments EncodeFailed {Encoding} _.

(** What a call of this module comes to: a returned value, or an exception
    that leaves the function. *)
Inductive result (A : Type) : Type :=
| Return (a : A) (out : list event)
| Propagate (e : string) (out : list event).
Arguments Return {A} _ _.
Arguments Propagate {A} _ _.

Section WithLibrary.

Variables Image Encoding : Type.

(** The file system and the face library. *)
Variable listdir : string -> list string + string.  (* [inr e]: it raises *)
Variable isdir : string -> bool.
Variable load_image_file : string -> load_result Image.
Variable face_encodings : Image -> encode_result Encoding.
Variable compare_faces : list Encoding -> Encoding -> list bool.

(** [any(face_recognition.compare_faces(encodings, e))] *)
Definition any_match (encodings : list Encoding) (e : Encoding) : bool :=
  existsb (fun b => b) (compare_faces encodings e).

(** The body of [for image_name in os.listdir(person_dir)] for one
    image: the [try] block with its [except Exception]. *)
Definition load_one (image_path : string) (encodings : list Encoding)
  : list Encoding * list event :=
  match load_image_file image_path with
  | Loaded image =>
      match face_encodings image with
      | Encodings (first :: _) => ((encodings ++ [first])%list, [])
      | Encodings [] => (encodings, [])
      | EncodeFailed e =>
          (encodings,
           [Print ("Error processing image " ++ image_path ++ ": " ++ e)])
      end
  | FileNotFound e | LoadFailed e =>
      (encodings,
       [Print ("Error processing image " ++ image_path ++ ": " ++ e)])
  end.

Fixpoint load_images (person_dir : string) (image_names : list string)
    (encodings : list Encoding) : list Encoding * list event :=
  match image_names with
  | [] => (encodings, [])
  | image_name :: rest =>
      let '(encodings1, out1) :=
        load_one (path_join person_dir image_name) encodings in
      let '(encodings2, out2) := load_images person_dir rest encodings1 in
      (encodings2, (out1 ++ out2)%list)
  end.

Fixpoint load_persons (dataset_path : string) (person_names : list string)
    (known_faces : dict (list Encoding)) (out : list event)
  : result (dict (list Encoding)) :=
  match person_names with
  | [] => Return known_faces out
  | person_name :: rest =>
      let person_dir := path_join dataset_path person_name in
      if isdir person_dir then
        match listdir person_dir with
        | inr e => Propagate e out
        | inl image_names =>
            let '(encodings, out1) := load_images person_dir image_names [] in
            let known_faces1 :=
              match encodings with
              | [] => known_faces
              | _ => dict_set person_name encodings known_faces
              end in
            load_persons dataset_path rest known_faces1 (out ++ out1)%list
        end
      else load_persons dataset_path rest known_faces out
  end.

(** [load_known_faces(dataset_path)] *)
Definition load_known_faces (dataset_path : string)
  : result (dict (list Encoding)) :=
  match listdir dataset_path with
  | inr e => Propagate e []
  | inl person_names => load_persons dataset_path person_names [] []
  end.

(** [for person_name, encodings in known_faces.items(): ... return] *)
Fixpoint first_match (known_faces : dict (list Encoding)) (e : Encoding)
  : option string :=
  match known_faces with
  | [] => None
  | (person_name, encodings) :: rest =>
      if any_match encodings e then Some person_name else first_match rest e
  end.

(** [recognize_face(unknown_image_path, known_faces)]; the returned value
    is [None], or [Some] of a name or of "Unknown". *)
Definition recognize_face (unknown_image_path : string)
    (known_faces : dict (list Encoding)) : result (option string) :=
  match load_image_file unknown_image_path with
  | FileNotFound e => Return None [Print ("Error loading image file: " ++ e)]
  | LoadFailed e => Propagate e []
  | Loaded unknown_image =>
      match face_encodings unknown_image with
      | EncodeFailed e => Propagate e []
      | Encodings [] =>
          Return None
            [Print ("Error: No face found in the user image ('"
                    ++ basename unknown_image_path ++ "').")]
      | Encodings (unknown_encoding :: _) =>
          match first_match known_faces unknown_encoding with
          | Some person_name => Return (Some person_name) []
          | None => Return (Some "Unknown") []
          end
      end
  end.

(** Vocabulary for the results below: the encoding an image contributes
    to its person (the first one found, if the image loads and shows a
    face), and the message of the exception that loading or encoding it
    raises, if any. *)
Definition first_encoding (image_path : string) : option Encoding :=
  match load_image_file image_path with
  | Loaded image =>
      match face_encodings image with
      | Encodings (first :: _) => Some first
      | _ => None
      end
  | _ => None
  end.

Definition image_error (image_path : string) : option string :=
  match load_image_file image_path with
  | Loaded image =>
      match face_encodings image with
      | Encodings _ => None
      | EncodeFailed e => Some e
      end
  | FileNotFound e | LoadFailed e => Some e
  end.

(** The line printed for an image whose processing raised [e]. *)
Definition error_line (image_path e : string) : event :=
  Print ("Error processing image " ++ image_path ++ ": " ++ e).

(** The encodings the images of a directory contribute, in order. *)
Definition encodings_of (person_dir : string) (image_names : list string)
  : list Encoding :=
  flat_map (fun image_name =>
              match first_encoding (path_join person_dir image_name) with
              | Some e => [e]
              | None => []
              end) image_names.

End WithLibrary.

End FaceRecognition.

(* ================================================================== *)
(** ** main.py *)

Module Main.

Import PyQueue.
Local Open Scope string_scope.

(** [(top, right, bottom, left)] *)
Definition box : Type := (Z * Z * Z * Z)%type.

(** An entry of [recognized_faces]: a box and a name. *)
Definition face : Type := (box * string)%type.

Definition known_faces_t (Encoding : Type) : Type :=
  FaceRecognition.dict (list Encoding).

(** [a > b] on clock readings. *)
Definition Qgtb (a b : Q) : bool := negb (Qle_bool a b).

Section Worker.

Variables Frame Encoding : Type.

(** The face library on a frame; resizing to a quarter and the colour
    conversion are part of these calls. *)
Variable face_locations : Frame -> list box.
Variable face_encodings : Frame -> list box -> list Encoding.
Variable compare_faces : list Encoding -> Encoding -> list bool.

(** The inner [for person_name, encodings in known_faces.items()] with
    its [break]; [name] starts as "Unknown". *)
Fixpoint match_name (known_faces : known_faces_t Encoding)
    (face_encoding : Encoding) : string :=
  match known_faces with
  | [] => "Unknown"
  | (person_name, encodings) :: rest =>
      if existsb (fun b => b) (compare_faces encodings face_encoding)
      then person_name
      else match_name rest face_encoding
  end.

Definition name_of (known_faces : known_faces_t Encoding)
    (face_encoding : Encoding) : string :=
  match known_faces with
  | [] => "Unknown"                       (* [if known_faces:] is false *)
  | _ => match_name known_faces face_encoding
  end.

Definition scale_up (b : box) : box :=
  let '(top, right_, bottom, left_) := b in
  (top * 4, right_ * 4, bottom * 4, left_ * 4)%Z.

(** The body of the worker loop between [get] and [put]. *)
Definition recognize_frame (known_faces : known_faces_t Encoding)
    (frame : Frame) : list face :=
  let locations := face_locations frame in
  let encodings := face_encodings frame locations in
  map (fun le => (scale_up (fst le), name_of known_faces (snd le)))
      (combine locations encodings).

Inductive worker_outcome : Type :=
| BlockedOnGet
| Stopped (fq : Queue (option Frame))
| BlockedOnPut (fq : Queue (option Frame)) (pending : list face)
| Looped (fq : Queue (option Frame)) (rq : Queue (list face))
         (out : list event).

(** One pass of [while True:] in [recognize_faces_worker]. *)
Definition recognize_faces_worker_pass (known_faces : known_faces_t Encoding)
    (fq : Queue (option Frame)) (rq : Queue (list face)) : worker_outcome :=
  match get fq with
  | WouldBlock => BlockedOnGet
  | Ready (None, fq') => Stopped fq'
  | Ready (Some frame, fq') =>
      let recognized_faces := recognize_frame known_faces frame in
      match put recognized_faces rq with
      | WouldBlock => BlockedOnPut fq' recognized_faces
      | Ready rq' => Looped fq' rq' [Sleep 1]
      end
  end.

End Worker.

Section Loop.

Variable Frame : Type.

(** The local variables of [run_live_recognition] and the objects they
    refer to. *)
Record loop_state : Type := mkLoop {
  frame_queue : Queue (option Frame);
  result_queue : Queue (list face);
  asr_listener : ASR.ASRListener;
  conversation_manager : LLM.Manager;
  conversation_mode : bool;
  conversation_timeout : Q;
  recognized_faces : list face;
  frame_count : Z;
  guard_mode : bool;
  last_unknown_alert_time : Q
}.

Definition process_every_n_frames : Z := 3.

(** What the environment supplies during one pass of the loop: the
    captured frame ([None]: [ret] is false), the three readings of
    [time.time()], the answer of [cv2.waitKey(1)], and what the text
    generator yields if it is called. *)
Record pass_env : Type := mkPassEnv {
  capture : option Frame;
  clock_guard : Q;
  key : Z;
  clock_asr : Q;
  clock_check : Q;
  generator_run : string -> LLM.generation
}.

Definition set_frame_queue (q : Queue (option Frame)) (s : loop_state) :=
  mkLoop q (result_queue s) (asr_listener s) (conversation_manager s)
    (conversation_mode s) (conversation_timeout s) (recognized_faces s)
    (frame_count s) (guard_mode s) (last_unknown_alert_time s).

Definition set_results (q : Queue (list face)) (r : list face) (s : loop_state) :=
  mkLoop (frame_queue s) q (asr_listener s) (conversation_manager s)
    (conversation_mode s) (conversation_timeout s) r
    (frame_count s) (guard_mode s) (last_unknown_alert_time s).

Definition set_asr_listener (l : ASR.ASRListener) (s : loop_state) :=
  mkLoop (frame_queue s) (result_queue s) l (conversation_manager s)
    (conversation_mode s) (conversation_timeout s) (recognized_faces s)
    (frame_count s) (guard_mode s) (last_unknown_alert_time s).

Definition set_conversation (m : LLM.Manager) (mode : bool) (timeout : Q)
    (s : loop_state) :=
  mkLoop (frame_queue s) (result_queue s) (asr_listener s) m
    mode timeout (recognized_faces s)
    (frame_count s) (guard_mode s) (last_unknown_alert_time s).

Definition set_frame_count (n : Z) (s : loop_state) :=
  mkLoop (frame_queue s) (result_queue s) (asr_listener s)
    (conversation_manager s) (conversation_mode s) (conversation_timeout s)
    (recognized_faces s) n (guard_mode s) (last_unknown_alert_time s).

Definition set_guard_mode (g : bool) (s : loop_state) :=
  mkLoop (frame_queue s) (result_queue s) (asr_listener s)
    (conversation_manager s) (conversation_mode s) (conversation_timeout s)
    (recognized_faces s) (frame_count s) g (last_unknown_alert_time s).

Definition set_last_unknown_alert_time (t : Q) (s : loop_state) :=
  mkLoop (frame_queue s) (result_queue s) (asr_listener s)
    (conversation_manager s) (conversation_mode s) (conversation_timeout s)
    (recognized_faces s) (frame_count s) (guard_mode s) t.

(** Lines 72-96, the state before the first pass: both queues are
    [Queue(maxsize=1)], the listener is started, the manager is new
    ([available], [load_error]: see [LLM.init]). *)
Definition initial (available : bool) (load_error : option string)
  : loop_state :=
  mkLoop (new 1) (new 1)
    (fst (ASR.start_listening (fst ASR.init)))
    (fst (LLM.init "facebook/opt-125m" available load_error))
    false 0 [] 0 false 0.

(** Lines 112-117: count the frame and hand it to the worker. *)
Definition submit_frame (frame : Frame) (s : loop_state)
  : blocking loop_state :=
  let s := set_frame_count (frame_count s + 1) s in
  if (frame_count s mod process_every_n_frames =? 0)%Z then
    if negb (full (frame_queue s)) then
      match put (Some frame) (frame_queue s) with
      | Ready q => Ready (set_frame_queue q s)
      | WouldBlock => WouldBlock
      end
    else Ready s
  else Ready s.

(** Lines 119-121: take a result if there is one. *)
Definition poll_results (s : loop_state) : blocking loop_state :=
  if negb (empty (result_queue s)) then
    match get (result_queue s) with
    | Ready (r, q) => Ready (set_results q r s)
    | WouldBlock => WouldBlock
    end
  else Ready s.

Definition alert_banner : list event :=
  [Print (PyStr.repeat "=" 60);
   Print "ALERT: UNKNOWN PERSON DETECTED!";
   Print (PyStr.repeat "=" 60)].

(** Lines 127-141: the body of the loop over [recognized_faces]. *)
Definition on_face (current_time : Q) (acc : loop_state * list event)
    (f : face) : loop_state * list event :=
  let '(s, out) := acc in
  if String.eqb (snd f) "Unknown"
     && Qgtb (current_time - last_unknown_alert_time s) 10
  then
    let '(s1, out1) :=
      if negb (conversation_mode s) then
        let '(opening_message, m, evs) :=
          LLM.start_conversation (conversation_manager s) in
        (set_conversation m true (current_time + 60) s,
         ([Print "Starting conversation with intruder..."]
          ++ evs ++ [SpeakAsync opening_message])%list)
      else (s, []) in
    (set_last_unknown_alert_time current_time s1,
     (out ++ alert_banner ++ out1)%list)
  else acc.

(** Lines 124-141. *)
Definition guard_check (current_time : Q) (s : loop_state)
  : loop_state * list event :=
  if guard_mode s
  then fold_left (on_face current_time) (recognized_faces s) (s, [])
  else (s, []).

(** Lines 144-167: [true] when the q key asks to leave the loop. *)
Definition display (key : Z) (s : loop_state) : bool * list event :=
  if guard_mode s then
    (Z.land key 255 =? 113, [Imshow (map snd (recognized_faces s))])%Z
  else (false, [DestroyWindow; Sleep (1 # 10)]).

(** Lines 184-203: a voice command; [true] when it asks to quit. *)
Definition voice_command (spoken_text : string) (s : loop_state)
  : bool * loop_state * list event :=
  let spoken_lower := PyStr.lower spoken_text in
  if PyStr.contains "guard" spoken_lower && PyStr.contains "room" spoken_lower
  then
    (false, set_guard_mode true s,
     [Print "GUARD MODE ACTIVATED";
      Print "System will alert when unknown faces are detected."])
  else if PyStr.contains "stop" spoken_lower
          && PyStr.contains "guard" spoken_lower
  then
    let s1 := set_conversation (conversation_manager s) false
                (conversation_timeout s) (set_guard_mode false s) in
    let '(m, evs) :=
      if LLM.is_conversation_active (conversation_manager s1)
      then LLM.end_conversation (conversation_manager s1)
      else (conversation_manager s1, []) in
    (false, set_conversation m false (conversation_timeout s1) s1,
     (evs ++ [Print "GUARD MODE DEACTIVATED"])%list)
  else if PyStr.any_in ["quit"; "exit"; "close"] spoken_lower
  then (true, s, [Print "Voice command to quit received!"])
  else (false, s, []).

(** Lines 175-181: the utterance is the intruder's answer. *)
Definition intruder_reply (run : string -> LLM.generation) (now : Q)
    (spoken_text : string) (s : loop_state) : loop_state * list event :=
  let '(ai_response, m, evs) :=
    LLM.process_intruder_response run (conversation_manager s) spoken_text in
  (set_conversation m (conversation_mode s) (now + 60) s,
   ([Print ("[INTRUDER]: " ++ spoken_text)] ++ evs
    ++ [Print ("[SECURITY AI]: " ++ ai_response); SpeakAsync ai_response])%list).

Inductive outcome : Type :=
| Continue (s : loop_state) (out : list event)
| Break (s : loop_state) (out : list event)
| Blocked           (* the pass waits on a queue *)
| Uncaught.         (* an exception leaves the loop *)

(** Lines 169-203.  [get_text] answers [None] only on an empty queue,
    which [has_text] has just excluded; that branch stands for the
    failure of [spoken_text.lower()] on [None]. *)
Definition speech_input (run : string -> LLM.generation) (now : Q)
    (s : loop_state) : outcome :=
  if ASR.has_text (asr_listener s) then
    match ASR.get_text (asr_listener s) with
    | (Some spoken_text, l) =>
        let s := set_asr_listener l s in
        let heard := [Print ("[VOICE COMMAND]: " ++ spoken_text)] in
        if conversation_mode s then
          let '(s1, evs) := intruder_reply run now spoken_text s in
          Continue s1 (heard ++ evs)%list
        else
          let '(quit, s1, evs) := voice_command spoken_text s in
          if quit then Break s1 (heard ++ evs)%list
          else Continue s1 (heard ++ evs)%list
    | (None, _) => Uncaught
    end
  else Continue s [].

Definition final_warning : string :=
  "You have not responded. Security has been notified. Leave immediately.".

(** Lines 205-213. *)
Definition check_timeout (now : Q) (s : loop_state)
  : loop_state * list event :=
  if conversation_mode s && Qgtb now (conversation_timeout s) then
    let s1 := set_conversation (conversation_manager s) false
                (conversation_timeout s) s in
    let out := [Print "Conversation timeout. Ending conversation with intruder."] in
    if LLM.is_conversation_active (conversation_manager s1) then
      let summary := LLM.get_conversation_summary (conversation_manager s1) in
      let '(m, evs) := LLM.end_conversation (conversation_manager s1) in
      (set_conversation m false (conversation_timeout s1) s1,
       (out ++ [Print summary] ++ evs ++ [SpeakAsync final_warning])%list)
    else (s1, out)
  else (s, []).

(** Lines 112-121: the two queue operations at the head of a pass. *)
Definition acquire (frame : Frame) (s : loop_state) : blocking loop_state :=
  match submit_frame frame s with
  | WouldBlock => WouldBlock
  | Ready s1 => poll_results s1
  end.

(** A pass up to the timeout check (lines 105-203). *)
Definition pass_prefix (env : pass_env) (s : loop_state) : outcome :=
  match capture env with
  | None => Break s [Print "Error: Can't receive frame (stream end?). Exiting ..."]
  | Some frame =>
      match acquire frame s with
      | WouldBlock => Blocked
      | Ready s2 =>
          let '(s3, out3) := guard_check (clock_guard env) s2 in
          let '(quit, out4) := display (key env) s3 in
          if quit then Break s3 (out3 ++ out4)%list
          else
            match speech_input (generator_run env) (clock_asr env) s3 with
            | Blocked => Blocked
            | Uncaught => Uncaught
            | Break s5 out5 => Break s5 (out3 ++ out4 ++ out5)%list
            | Continue s5 out5 => Continue s5 (out3 ++ out4 ++ out5)%list
            end
      end
  end.

(** One pass of [while True:] (lines 105-213). *)
Definition loop_pass (env : pass_env) (s : loop_state) : outcome :=
  match pass_prefix env s with
  | Continue s5 out5 =>
      let '(s6, out6) := check_timeout (clock_check env) s5 in
      Continue s6 (out5 ++ out6)%list
  | other => other
  end.

Definition events_of (o : outcome) : list event :=
  match o with
  | Continue _ out | Break _ out => out
  | Blocked | Uncaught => []
  end.

(** The loop over the passes the environment allows; it ends with the
    pass that breaks. *)
Fixpoint run_loop (envs : list pass_env) (s : loop_state) : outcome :=
  match envs with
  | [] => Continue s []
  | env :: rest =>
      match loop_pass env s with
      | Continue s1 out1 =>
          match run_loop rest s1 with
          | Continue s2 out2 => Continue s2 (out1 ++ out2)%list
          | Break s2 out2 => Break s2 (out1 ++ out2)%list
          | Blocked => Blocked
          | Uncaught => Uncaught
          end
      | other => other
      end
  end.

(** Lines 220-225: after the loop the listener is stopped and the
    sentinel is put on the frame queue with a waiting [put]. *)
Definition shutdown (s : loop_state) : blocking (loop_state * list event) :=
  let '(l, evs) := ASR.stop_listening (asr_listener s) in
  match put None (frame_queue s) with
  | Ready q => Ready (set_frame_queue q (set_asr_listener l s), evs)
  | WouldBlock => WouldBlock
  end.

(** What the other threads do to the queues between two passes. *)
Inductive interference : loop_state -> loop_state -> Prop :=
| worker_takes : forall s x q,
    get (frame_queue s) = Ready (x, q) ->
    interference s (set_frame_queue q s)
| worker_puts : forall s r q,
    put r (result_queue s) = Ready q ->
    interference s (set_results q (recognized_faces s) s)
| listener_puts : forall s text q,
    put text (ASR.text_queue (asr_listener s)) = Ready q ->
    interference s
      (set_asr_listener (ASR.mkListener (ASR.listening (asr_listener s)) q) s).

(** The loop's flag and the manager's flag: a conversation the loop
    believes to be going on is active in the manager. *)
Definition consistent (s : loop_state) : Prop :=
  conversation_mode s = true ->
  LLM.conversation_active (conversation_manager s) = true.

(** A conversation goes on in guard mode only. *)
Definition guarded (s : loop_state) : Prop :=
  conversation_mode s = true -> guard_mode s = true.

(** The states the loop can be in at the head of a pass. *)
Inductive reachable : loop_state -> Prop :=
| reach_initial : forall available load_error,
    reachable (initial available load_error)
| reach_pass : forall s env s' out,
    reachable s -> loop_pass env s = Continue s' out -> reachable s'
| reach_interference : forall s s',
    reachable s -> interference s s' -> reachable s'.

End Loop.

Arguments frame_queue {Frame}.
Arguments result_queue {Frame}.
Arguments asr_listener {Frame}.
Arguments conversation_manager {Frame}.
Arguments conversation_mode {Frame}.
Arguments conversation_timeout {Frame}.
Arguments recognized_faces {Frame}.
Arguments frame_count {Frame}.
Arguments guard_mode {Frame}.
Arguments last_unknown_alert_time {Frame}.
Arguments capture {Frame}.
Arguments clock_guard {Frame}.
Arguments key {Frame}.
Arguments clock_asr {Frame}.
Arguments clock_check {Frame}.
Arguments generator_run {Frame}.
Arguments set_frame_queue {Frame}.
Arguments set_results {Frame}.
Arguments set_asr_listener {Frame}.
Arguments set_conversation {Frame}.
Arguments set_frame_count {Frame}.
Arguments set_guard_mode {Frame}.
Arguments set_last_unknown_alert_time {Frame}.
Arguments submit_frame {Frame}.
Arguments poll_results {Frame}.
Arguments on_face {Frame}.
Arguments guard_check {Frame}.
Arguments display {Frame}.
Arguments voice_command {Frame}.
Arguments intruder_reply {Frame}.
Arguments speech_input {Frame}.
Arguments check_timeout {Frame}.
Arguments acquire {Frame}.
Arguments pass_prefix {Frame}.
Arguments loop_pass {Frame}.
Arguments events_of {Frame}.
Arguments run_loop {Frame}.
Arguments shutdown {Frame}.
Arguments interference {Frame}.
Arguments reachable {Frame}.
Arguments consistent {Frame}.
Arguments guarded {Frame}.
Arguments mkLoop {Frame}.
Arguments mkPassEnv {Frame}.
Arguments Continue {Frame}.
Arguments Break {Frame}.
Arguments Blocked {Frame}.
Arguments Uncaught {Frame}.

End Main.

(* ================================================================== *)
(** ** Sample runs *)

(** Concrete states and environments on which the results below are
    exercised.  Frames are numbered. *)
Module Sample.

Import PyQueue Main.
Local Open Scope string_scope.

Definition a_box : box := (10, 50, 60, 20)%Z.

(** The state before the first pass, without a text generator. *)
Definition start : loop_state nat := initial nat false None.

(** An uneventful environment: frame [n] is captured, no key is pressed. *)
Definition quiet (n : nat) (now : Q) : pass_env nat :=
  mkPassEnv (Some n) now (-1) now now (fun _ => LLM.GenerationFailed "no model").

(** Two frames have gone by. *)
Definition two_frames_in : loop_state nat := set_frame_count 2 start.

(** A toy face library: an encoding is a number, every frame shows one
    face whose encoding is the frame number, and two encodings match when
    they differ by at most 6. *)
Definition toy_locations (frame : nat) : list box := [a_box].
Definition toy_encodings (frame : nat) (locations : list box) : list Z :=
  [Z.of_nat frame].
Definition toy_compare (encodings : list Z) (e : Z) : list bool :=
  map (fun k => (Z.abs (k - e) <=? 6)%Z) encodings.

Definition household : known_faces_t Z := [("alice", [0%Z]); ("bob", [10%Z])].

(** A worker that finds a frame to take while the last result is still
    waiting to be read. *)
Definition frame_waiting : Queue (option nat) := mkQueue 1 [Some 5%nat].
Definition result_unread : Queue (list face) := mkQueue 1 [[(a_box, "alice")]].

(** The listener hears and recognizes one sentence per pass. *)
Definition hears (text : string) : ASR.pass_env :=
  ASR.mkPassEnv (Some false) (ASR.Heard "pcm") (fun _ => ASR.Recognized text).

(** The listener has recognized [text] and the loop has not read it yet. *)
Definition with_text (text : string) (s : loop_state nat) : loop_state nat :=
  set_asr_listener
    (ASR.mkListener true (mkQueue 0 (items (ASR.text_queue (asr_listener s)) ++ [text])))
    s.

(** Guard mode is on and a conversation with an intruder began at time 100. *)
Definition in_conversation : loop_state nat :=
  set_conversation
    (snd (fst (LLM.start_conversation (conversation_manager start))))
    true 160 (set_guard_mode true start).

(** The owner says "guard my room"; the first pass turns guard mode on. *)
Definition guarding : loop_state nat :=
  match loop_pass (quiet 1 10) (with_text "guard my room" start) with
  | Continue s _ => s
  | _ => start
  end.

(** Then the worker reports a face it does not know. *)
Definition intruder_seen : loop_state nat :=
  set_results (mkQueue 1 [[(a_box, "Unknown")]]) (recognized_faces guarding)
    guarding.

(** A pass in which the alert is raised at time 100 and the clock reads 200
    at the timeout check. *)
Definition slow_pass : pass_env nat :=
  mkPassEnv (Some 2%nat) 100 (-1) 100 200 (fun _ => LLM.GenerationFailed "no model").

(** An unknown face is reported while guard mode is off. *)
Definition unguarded_intruder : loop_state nat :=
  set_results (mkQueue 1 [[(a_box, "Unknown")]]) [] start.

(** An unknown face is reported five seconds after the last alert. *)
Definition recently_alerted : loop_state nat :=
  set_last_unknown_alert_time 95 intruder_seen.

(** A toy data set.  An image is a number: a negative one shows no face,
    any other shows one face with that number as its encoding. *)
Definition toy_ls (path : string) : list string :=
  if String.eqb path "dataset" then ["alice"; "notes.txt"; "bob"; "carol"]
  else if String.eqb path "dataset/alice" then ["1.jpg"; "broken.jpg"; "2.jpg"]
  else if String.eqb path "dataset/bob" then ["b.jpg"]
  else if String.eqb path "dataset/carol" then ["empty.jpg"; "c.txt"]
  else [].

Definition toy_isdir (path : string) : bool :=
  String.eqb path "dataset/alice" || String.eqb path "dataset/bob"
  || String.eqb path "dataset/carol".

Definition toy_load (path : string) : FaceRecognition.load_result Z :=
  if String.eqb path "dataset/alice/1.jpg" then FaceRecognition.Loaded 0%Z
  else if String.eqb path "dataset/alice/2.jpg" then FaceRecognition.Loaded 1%Z
  else if String.eqb path "dataset/bob/b.jpg" then FaceRecognition.Loaded 10%Z
  else if String.eqb path "dataset/carol/empty.jpg"
       then FaceRecognition.Loaded (-1)%Z
  else if String.eqb path "probe.jpg" then FaceRecognition.Loaded 5%Z
  else if String.eqb path "dataset/alice/broken.jpg"
          || String.eqb path "dataset/carol/c.txt"
          || String.eqb path "garbled.jpg"
       then FaceRecognition.LoadFailed "cannot identify image file"
  else FaceRecognition.FileNotFound "No such file or directory".

Definition toy_face_encodings (image : Z) : FaceRecognition.encode_result Z :=
  if (image <? 0)%Z then FaceRecognition.Encodings []
  else FaceRecognition.Encodings [image].

(** The listener hears a clip that the recognition service cannot make
    out. *)
Definition mumbles : ASR.pass_env :=
  ASR.mkPassEnv (Some false) (ASR.Heard "pcm") (fun _ => ASR.UnknownValue).

(** A listener that has been started. *)
Definition listener : ASR.ASRListener := fst (ASR.start_listening (fst ASR.init)).

(** A pass in which the alert is raised at time 100 and the timeout check
    follows at once. *)
Definition alert_pass : pass_env nat :=
  mkPassEnv (Some 2%nat) 100 (-1) 100 100 (fun _ => LLM.GenerationFailed "no model").

(** The state after that pass: the intruder has been challenged. *)
Definition challenged : loop_state nat :=
  match loop_pass alert_pass intruder_seen with
  | Continue s _ => s
  | _ => start
  end.

End Sample.

(* ================================================================== *)
(** * Properties *)

Import PyQueue.

(** ** Queues *)

Section QueueFacts.

Context {A : Type}.

Lemma empty_items (q : Queue A) : empty q = true <-> items q = [].
Proof.
  unfold empty, qsize. rewrite Z.eqb_eq.
  destruct (items q); cbn [length]; split; intros H;
    try reflexivity; try discriminate; lia.
Qed.

Lemma put_when_not_full (x : A) (q : Queue A) :
  full q = false -> put x q = Ready (mkQueue (maxsize q) (items q ++ [x])).
Proof. intros H. unfold put. rewrite H. reflexivity. Qed.

Lemma put_when_full (x : A) (q : Queue A) :
  full q = true -> put x q = WouldBlock.
Proof. intros H. unfold put. rewrite H. reflexivity. Qed.

Lemma unbounded_never_full (q : Queue A) : maxsize q = 0%Z -> full q = false.
Proof. intros H. unfold full. rewrite H. reflexivity. Qed.

Lemma get_when_not_empty (q : Queue A) :
  empty q = false -> exists x rest,
    items q = x :: rest /\ get q = Ready (x, mkQueue (maxsize q) rest).
Proof.
  intros H. unfold get. destruct (items q) as [|x rest] eqn:E.
  - assert (empty q = true) by (apply empty_items; exact E). congruence.
  - exists x, rest. split; reflexivity.
Qed.

(** A consumer that takes items in between does not make a queue full. *)
Lemma not_full_after_get (q q' : Queue A) (x : A) :
  full q = false -> get q = Ready (x, q') -> full q' = false.
Proof.
  unfold full, get, qsize. destruct (items q) as [|y rest]; [discriminate|].
  intros H E. injection E as _ <-. simpl maxsize in *.
  cbn [items] in *.
  destruct (0 <? maxsize q)%Z; [|reflexivity]. simpl in *.
  apply Z.leb_gt in H. apply Z.leb_gt. simpl length in H. lia.
Qed.

(** A producer that adds items in between does not make a queue empty. *)
Lemma not_empty_after_put (q q' : Queue A) (x : A) :
  put x q = Ready q' -> empty q' = false.
Proof.
  unfold put. destruct (full q); [discriminate|]. intros E.
  injection E as <-. apply not_true_iff_false. intros E'.
  apply empty_items in E'. cbn [items] in E'.
  destruct (items q); discriminate.
Qed.

(** A test followed by the operation it guards is safe against the other
    side working in between: after [not q.empty()] a [get] finds an item
    even if producers have put more, and after [not q.full()] a [put] finds
    room even if the consumer has taken some. *)
Lemma get_after_check (q q' : Queue A) (x : A) :
  empty q = false -> put x q = Ready q' -> get q' <> WouldBlock.
Proof.
  intros _ Hp. pose proof (not_empty_after_put q q' x Hp) as E.
  destruct (get_when_not_empty q' E) as (y & rest & _ & ->). discriminate.
Qed.

Lemma put_after_check (q q' : Queue A) (x y : A) :
  full q = false -> get q = Ready (x, q') -> put y q' <> WouldBlock.
Proof.
  intros F Hg. rewrite put_when_not_full; [discriminate|].
  exact (not_full_after_get q q' x F Hg).
Qed.

End QueueFacts.

(** ** The main loop: what each stage may change *)

Section LoopFacts.

Import Main.
Variable Frame : Type.
Implicit Types s : loop_state Frame.

Lemma submit_frame_spec (frame : Frame) s :
  submit_frame frame s =
  Ready (if ((frame_count s + 1) mod 3 =? 0)%Z && negb (full (frame_queue s))
         then set_frame_queue
                (mkQueue (maxsize (frame_queue s))
                         (items (frame_queue s) ++ [Some frame]))
                (set_frame_count (frame_count s + 1) s)
         else set_frame_count (frame_count s + 1) s).
Proof.
  unfold submit_frame, process_every_n_frames.
  change (frame_count (set_frame_count (frame_count s + 1) s))
    with (frame_count s + 1)%Z.
  change (frame_queue (set_frame_count (frame_count s + 1) s))
    with (frame_queue s).
  destruct ((frame_count s + 1) mod 3 =? 0)%Z; [|reflexivity].
  destruct (full (frame_queue s)) eqn:F; [reflexivity|].
  cbn [negb andb]. rewrite put_when_not_full by exact F. reflexivity.
Qed.

Lemma poll_results_spec s :
  poll_results s =
  Ready (match items (result_queue s) with
         | [] => s
         | r :: rest => set_results (mkQueue (maxsize (result_queue s)) rest) r s
         end).
Proof.
  unfold poll_results. destruct (empty (result_queue s)) eqn:E.
  - apply empty_items in E. rewrite E. reflexivity.
  - destruct (get_when_not_empty _ E) as (x & rest & Hi & Hg).
    cbn [negb]. rewrite Hg, Hi. reflexivity.
Qed.

Lemma acquire_ready (frame : Frame) s : exists s2, acquire frame s = Ready s2.
Proof.
  unfold acquire. rewrite submit_frame_spec, poll_results_spec. eauto.
Qed.

(** The guard check touches the conversation fields and the alert time
    only. *)
Lemma on_face_shape (now : Q) s out (f : face) :
  exists m mode t last,
    fst (on_face now (s, out) f)
    = set_last_unknown_alert_time last (set_conversation m mode t s).
Proof.
  unfold on_face.
  destruct (String.eqb (snd f) "Unknown"
            && Qgtb (now - last_unknown_alert_time s) 10).
  - destruct (conversation_mode s) eqn:M; cbn.
    + exists (conversation_manager s), true, (conversation_timeout s), now.
      destruct s; cbn in *; subst; reflexivity.
    + do 4 eexists. reflexivity.
  - exists (conversation_manager s), (conversation_mode s),
      (conversation_timeout s), (last_unknown_alert_time s).
    destruct s; reflexivity.
Qed.

Lemma fold_on_face_shape (now : Q) (faces : list face) : forall s out,
  exists m mode t last,
    fst (fold_left (on_face now) faces (s, out))
    = set_last_unknown_alert_time last (set_conversation m mode t s).
Proof.
  induction faces as [|f faces IH]; intros s out.
  - exists (conversation_manager s), (conversation_mode s),
      (conversation_timeout s), (last_unknown_alert_time s).
    destruct s; reflexivity.
  - cbn [fold_left].
    destruct (on_face_shape now s out f) as (m & mode & t & last & E).
    destruct (on_face now (s, out) f) as [s1 out1]. cbn [fst] in E. subst s1.
    destruct (IH (set_last_unknown_alert_time last (set_conversation m mode t s)) out1)
      as (m' & mode' & t' & last' & E').
    rewrite E'. exists m', mode', t', last'. reflexivity.
Qed.

Lemma guard_check_shape (now : Q) s :
  exists m mode t last,
    fst (guard_check now s)
    = set_last_unknown_alert_time last (set_conversation m mode t s).
Proof.
  unfold guard_check. destruct (guard_mode s).
  - apply fold_on_face_shape.
  - exists (conversation_manager s), (conversation_mode s),
      (conversation_timeout s), (last_unknown_alert_time s).
    destruct s; reflexivity.
Qed.

Lemma check_timeout_shape (now : Q) s :
  exists m mode,
    fst (check_timeout now s) = set_conversation m mode (conversation_timeout s) s.
Proof.
  unfold check_timeout.
  destruct (conversation_mode s && Qgtb now (conversation_timeout s)).
  - cbn [conversation_manager set_conversation].
    destruct (LLM.is_conversation_active (conversation_manager s));
      cbn; do 2 eexists; reflexivity.
  - exists (conversation_manager s), (conversation_mode s).
    destruct s; reflexivity.
Qed.

Lemma voice_command_shape (text : string) s :
  exists m mode g,
    snd (fst (voice_command text s))
    = set_conversation m mode (conversation_timeout s) (set_guard_mode g s).
Proof.
  unfold voice_command.
  destruct (PyStr.contains "guard" (PyStr.lower text)
            && PyStr.contains "room" (PyStr.lower text)).
  - exists (conversation_manager s), (conversation_mode s), true.
    destruct s; reflexivity.
  - destruct (PyStr.contains "stop" (PyStr.lower text)
              && PyStr.contains "guard" (PyStr.lower text)).
    + cbn [conversation_manager set_conversation set_guard_mode].
      destruct (LLM.is_conversation_active (conversation_manager s));
        cbn; do 3 eexists; reflexivity.
    + destruct (PyStr.any_in _ _);
        exists (conversation_manager s), (conversation_mode s), (guard_mode s);
        destruct s; reflexivity.
Qed.

(** The speech stage either continues or breaks; it takes the oldest text
    off the listener's queue if there is one. *)
Lemma speech_input_shape (run : string -> LLM.generation) (now : Q) s :
  exists s' out m mode t g l,
    (speech_input run now s = Continue s' out
     \/ speech_input run now s = Break s' out)
    /\ s' = set_conversation m mode t (set_guard_mode g (set_asr_listener l s))
    /\ (l = asr_listener s
        \/ exists text rest,
             items (ASR.text_queue (asr_listener s)) = text :: rest
             /\ l = ASR.mkListener (ASR.listening (asr_listener s))
                      (mkQueue (maxsize (ASR.text_queue (asr_listener s))) rest)).
Proof.
  unfold speech_input, ASR.has_text, ASR.get_text, get_nowait.
  destruct (empty (ASR.text_queue (asr_listener s))) eqn:E; cbn [negb].
  - exists s, [], (conversation_manager s), (conversation_mode s),
      (conversation_timeout s), (guard_mode s), (asr_listener s).
    split; [left; reflexivity|]. split; [destruct s; reflexivity|left; reflexivity].
  - destruct (get_when_not_empty _ E) as (text & rest & Hi & _). rewrite Hi.
    set (l := ASR.mkListener _ _).
    cbn [conversation_mode set_asr_listener].
    destruct (conversation_mode s) eqn:M.
    + unfold intruder_reply.
      destruct (LLM.process_intruder_response _ _ _) as [[reply m] evs].
      do 2 eexists. exists m, true, (now + 60)%Q, (guard_mode s), l.
      split; [left; reflexivity|]. split.
      * cbn. rewrite M. reflexivity.
      * right. exists text, rest. split; reflexivity.
    + destruct (voice_command_shape text (set_asr_listener l s)) as (m & mode & g & Hv).
      destruct (voice_command text (set_asr_listener l s)) as [[quit s1] evs].
      cbn [fst snd] in Hv. subst s1.
      exists (set_conversation m mode (conversation_timeout (set_asr_listener l s))
                (set_guard_mode g (set_asr_listener l s))).
      eexists. exists m, mode, (conversation_timeout s), g, l. split.
      * destruct quit; [right|left]; reflexivity.
      * split; [reflexivity|]. right. exists text, rest. split; reflexivity.
Qed.

End LoopFacts.

(** ** The main loop: a pass as a whole *)

Section PassFacts.

Import Main.
Variable Frame : Type.
Implicit Types s : loop_state Frame.
Implicit Types env : pass_env Frame.

(** The queue side of the state after the two queue operations. *)
Lemma acquire_spec (frame : Frame) s s2 :
  acquire frame s = Ready s2 ->
  frame_count s2 = (frame_count s + 1)%Z
  /\ asr_listener s2 = asr_listener s
  /\ guard_mode s2 = guard_mode s
  /\ conversation_mode s2 = conversation_mode s
  /\ conversation_manager s2 = conversation_manager s
  /\ frame_queue s2
     = (if ((frame_count s + 1) mod 3 =? 0)%Z && negb (full (frame_queue s))
        then mkQueue (maxsize (frame_queue s))
                     (items (frame_queue s) ++ [Some frame])
        else frame_queue s)
  /\ result_queue s2
     = match items (result_queue s) with
       | [] => result_queue s
       | _ :: rest => mkQueue (maxsize (result_queue s)) rest
       end
  /\ recognized_faces s2
     = match items (result_queue s) with
       | [] => recognized_faces s
       | r :: _ => r
       end.
Proof.
  unfold acquire. rewrite submit_frame_spec, poll_results_spec.
  intros E. injection E as <-.
  destruct ((frame_count s + 1) mod 3 =? 0)%Z, (full (frame_queue s));
    cbn [andb negb];
    cbn [result_queue set_frame_queue set_frame_count];
    destruct (items (result_queue s)); repeat split; reflexivity.
Qed.

(** A pass that has a frame changes the queues in [acquire] and by taking
    at most one text; everything else it changes is a flag, a clock value
    or the manager. *)
Lemma pass_prefix_shape env s (frame : Frame) s' out :
  capture env = Some frame ->
  pass_prefix env s = Continue s' out \/ pass_prefix env s = Break s' out ->
  exists s2 m mode t g last l,
    acquire frame s = Ready s2
    /\ s' = set_last_unknown_alert_time last
              (set_conversation m mode t (set_guard_mode g (set_asr_listener l s2)))
    /\ (l = asr_listener s2
        \/ exists text rest,
             items (ASR.text_queue (asr_listener s2)) = text :: rest
             /\ l = ASR.mkListener (ASR.listening (asr_listener s2))
                      (mkQueue (maxsize (ASR.text_queue (asr_listener s2))) rest)).
Proof.
  intros Hc H. unfold pass_prefix in H. rewrite Hc in H.
  destruct (acquire_ready Frame frame s) as [s2 Ha]. rewrite Ha in H.
  exists s2.
  destruct (guard_check_shape Frame (clock_guard env) s2) as (m3 & mode3 & t3 & last3 & E3).
  destruct (guard_check (clock_guard env) s2) as [s3 out3]. cbn [fst] in E3.
  destruct (display (key env) s3) as [quit out4]. destruct quit.
  - exists m3, mode3, t3, (guard_mode s2), last3, (asr_listener s2).
    split; [exact Ha|]. split; [|left; reflexivity].
    destruct H as [H|H]; [discriminate|]. injection H as <- _.
    subst s3. destruct s2; reflexivity.
  - destruct (speech_input_shape Frame (generator_run env) (clock_asr env) s3)
      as (s5 & out5 & m & mode & t & g & l & Hs & E5 & Hl).
    exists m, mode, t, g, last3, l. split; [exact Ha|].
    assert (s' = s5) as ->.
    { destruct Hs as [Hs|Hs]; rewrite Hs in H;
        destruct H as [H|H]; try discriminate; injection H as <- _; reflexivity. }
    subst s5 s3. split; [reflexivity|exact Hl].
Qed.

Lemma loop_pass_shape env s (frame : Frame) s' out :
  capture env = Some frame ->
  loop_pass env s = Continue s' out \/ loop_pass env s = Break s' out ->
  exists s2 m mode t g last l,
    acquire frame s = Ready s2
    /\ s' = set_last_unknown_alert_time last
              (set_conversation m mode t (set_guard_mode g (set_asr_listener l s2)))
    /\ (l = asr_listener s2
        \/ exists text rest,
             items (ASR.text_queue (asr_listener s2)) = text :: rest
             /\ l = ASR.mkListener (ASR.listening (asr_listener s2))
                      (mkQueue (maxsize (ASR.text_queue (asr_listener s2))) rest)).
Proof.
  intros Hc H. unfold loop_pass in H.
  destruct (pass_prefix env s) as [s5 out5|s5 out5| |] eqn:P.
  - destruct (pass_prefix_shape env s frame s5 out5 Hc (or_introl P))
      as (s2 & m & mode & t & g & last & l & Ha & E & Hl).
    destruct (check_timeout_shape Frame (clock_check env) s5) as (m6 & mode6 & E6).
    destruct (check_timeout (clock_check env) s5) as [s6 out6]. cbn [fst] in E6.
    exists s2, m6, mode6, t, g, last, l. split; [exact Ha|]. split; [|exact Hl].
    destruct H as [H|H]; [|discriminate]. injection H as <- _.
    subst s6 s5. reflexivity.
  - destruct H as [H|H]; [discriminate|]. injection H as <- <-.
    exact (pass_prefix_shape env s frame s5 out5 Hc (or_intror P)).
  - destruct H; discriminate.
  - destruct H; discriminate.
Qed.

(** Every pass comes to an end: it continues or it breaks. *)
Lemma pass_prefix_total env s :
  exists s' out,
    pass_prefix env s = Continue s' out \/ pass_prefix env s = Break s' out.
Proof.
  unfold pass_prefix. destruct (capture env) as [frame|]; [|eauto].
  destruct (acquire_ready Frame frame s) as [s2 ->].
  destruct (guard_check (clock_guard env) s2) as [s3 out3].
  destruct (display (key env) s3) as [quit out4]. destruct quit; [eauto|].
  destruct (speech_input_shape Frame (generator_run env) (clock_asr env) s3)
    as (s5 & out5 & _ & _ & _ & _ & _ & [Hs|Hs] & _); rewrite Hs; eauto.
Qed.

Lemma loop_pass_total env s :
  exists s' out,
    loop_pass env s = Continue s' out \/ loop_pass env s = Break s' out.
Proof.
  unfold loop_pass.
  destruct (pass_prefix_total env s) as (s5 & out5 & [P|P]); rewrite P.
  - destruct (check_timeout (clock_check env) s5); eauto.
  - eauto.
Qed.

(** So does every run of the loop. *)
Lemma run_loop_total (envs : list (pass_env Frame)) : forall s,
  exists s' out,
    run_loop envs s = Continue s' out \/ run_loop envs s = Break s' out.
Proof.
  induction envs as [|env envs IH]; intros s; cbn [run_loop]; [eauto|].
  destruct (loop_pass_total env s) as (s1 & out1 & [E|E]); rewrite E; [|eauto].
  destruct (IH s1) as (s2 & out2 & [E2|E2]); rewrite E2; eauto.
Qed.

End PassFacts.


(** ** Capacities of the three queues *)

Section Capacities.

Import Main.
Variable Frame : Type.
Implicit Types s : loop_state Frame.

Lemma reachable_capacities s :
  reachable s ->
  maxsize (frame_queue s) = 1%Z
  /\ maxsize (result_queue s) = 1%Z
  /\ maxsize (ASR.text_queue (asr_listener s)) = 0%Z.
Proof.
  induction 1 as [available load_error | s env s' out _ IH Hp | s s' _ IH Hi].
  - repeat split; reflexivity.
  - destruct IH as (Hf & Hr & Ht).
    destruct (capture env) as [frame|] eqn:Hc.
    2:{ unfold loop_pass, pass_prefix in Hp. rewrite Hc in Hp. discriminate. }
    destruct (loop_pass_shape Frame env s frame s' out Hc (or_introl Hp))
      as (s2 & m & mode & t & g & last & l & Ha & -> & Hl).
    destruct (acquire_spec Frame frame s s2 Ha)
      as (_ & Hl2 & _ & _ & _ & Hq & Hrq & _).
    cbn [frame_queue result_queue asr_listener set_last_unknown_alert_time
         set_conversation set_guard_mode set_asr_listener].
    rewrite Hq, Hrq. repeat split.
    + destruct (_ && _); [exact Hf | exact Hf].
    + destruct (items (result_queue s)); exact Hr.
    + destruct Hl as [-> | (text & rest & _ & ->)]; rewrite Hl2; exact Ht.
  - destruct IH as (Hf & Hr & Ht).
    destruct Hi as [s x q Hg | s r q Hput | s text q Hput];
      cbn [frame_queue result_queue asr_listener ASR.text_queue
           set_frame_queue set_results set_asr_listener].
    + unfold get in Hg. destruct (items (frame_queue s)); [discriminate|].
      injection Hg as _ <-. repeat split; assumption.
    + unfold put in Hput. destruct (full (result_queue s)); [discriminate|].
      injection Hput as <-. repeat split; assumption.
    + unfold put in Hput.
      destruct (full (ASR.text_queue (asr_listener s))); [discriminate|].
      injection Hput as <-. repeat split; assumption.
Qed.

End Capacities.

(* ================================================================== *)
(** * Main results *)

Section FrameAndPolling.

Import Main.
Variable Frame : Type.
Implicit Types s : loop_state Frame.
Implicit Types env : pass_env Frame.

(** C6.  In a pass that captures a frame, the frame is appended to the
    frame queue if and only if the frame counter, once incremented, is a
    multiple of 3 and the frame queue is not full; in every other pass the
    frame queue is left as it was. *)
Theorem frame_handed_over_iff env s (frame : Frame) s' out :
  capture env = Some frame ->
  loop_pass env s = Continue s' out \/ loop_pass env s = Break s' out ->
  frame_count s' = (frame_count s + 1)%Z
  /\ (items (frame_queue s') = items (frame_queue s) ++ [Some frame]
      <-> (frame_count s' mod 3 = 0)%Z /\ full (frame_queue s) = false)
  /\ (~ ((frame_count s' mod 3 = 0)%Z /\ full (frame_queue s) = false)
      -> frame_queue s' = frame_queue s).
Proof.
  intros Hc H.
  destruct (loop_pass_shape Frame env s frame s' out Hc H)
    as (s2 & m & mode & t & g & last & l & Ha & -> & _).
  destruct (acquire_spec Frame frame s s2 Ha) as (Hn & _ & _ & _ & _ & Hq & _).
  cbn [frame_count frame_queue set_last_unknown_alert_time set_conversation
       set_guard_mode set_asr_listener].
  rewrite Hn, Hq. split; [reflexivity|].
  destruct ((frame_count s + 1) mod 3 =? 0)%Z eqn:M;
    [apply Z.eqb_eq in M | apply Z.eqb_neq in M].
  - destruct (full (frame_queue s)) eqn:F; cbn [andb negb items].
    + split.
      * split; [|intros [_ ?]; discriminate].
        intros E. apply (f_equal (@List.length _)) in E.
        rewrite length_app in E. cbn in E. lia.
      * reflexivity.
    + split; [tauto|]. intros N. exfalso. apply N. split; [exact M|reflexivity].
  - cbn [andb]. split; [|reflexivity].
    split; [|intros [? _]; contradiction].
    intros E. apply (f_equal (@List.length _)) in E.
    rewrite length_app in E. cbn in E. lia.
Qed.

(** C8.  A pass of the main loop never waits on a queue (and never fails):
    it continues or breaks, and so does every run of passes.  A recognition
    result is taken only from a result queue that is not empty, and
    [get_text] yields [None] on an empty text queue and the oldest text
    otherwise. *)
Theorem main_loop_never_blocks env s :
  (exists s' out,
      loop_pass env s = Continue s' out \/ loop_pass env s = Break s' out)
  /\ loop_pass env s <> Blocked
  /\ (forall envs, run_loop envs s <> Blocked)
  /\ poll_results s
     = Ready (match items (result_queue s) with
              | [] => s
              | r :: rest =>
                  set_results (mkQueue (maxsize (result_queue s)) rest) r s
              end)
  /\ ASR.has_text (asr_listener s)
     = match items (ASR.text_queue (asr_listener s)) with
       | [] => false
       | _ :: _ => true
       end
  /\ ASR.get_text (asr_listener s)
     = match items (ASR.text_queue (asr_listener s)) with
       | [] => (None, asr_listener s)
       | text :: rest =>
           (Some text,
            ASR.mkListener (ASR.listening (asr_listener s))
              (mkQueue (maxsize (ASR.text_queue (asr_listener s))) rest))
       end.
Proof.
  split; [apply loop_pass_total|].
  split.
  { destruct (loop_pass_total Frame env s) as (s' & out & [E|E]);
      rewrite E; discriminate. }
  split.
  { intros envs. destruct (run_loop_total Frame envs s) as (s' & out & [E|E]);
      rewrite E; discriminate. }
  split; [apply poll_results_spec|].
  split.
  - unfold ASR.has_text, empty, qsize.
    destruct (items (ASR.text_queue (asr_listener s))); reflexivity.
  - unfold ASR.get_text, get_nowait.
    destruct (items (ASR.text_queue (asr_listener s))); reflexivity.
Qed.

End FrameAndPolling.

(** C6 on a sample pass: the third frame is handed over. *)
Lemma frame_handed_over_iff_witness :
  exists s' out,
    Main.loop_pass (Sample.quiet 7 100) Sample.two_frames_in = Main.Continue s' out
    /\ Main.frame_count s' = 3%Z
    /\ items (Main.frame_queue s') = [Some 7%nat].
Proof.
  do 2 eexists. split; [vm_compute; reflexivity|].
  destruct (frame_handed_over_iff nat (Sample.quiet 7 100) Sample.two_frames_in 7%nat
              _ _ eq_refl (or_introl eq_refl)) as (Hn & Hq & _).
  split; [exact Hn|]. apply Hq. split; reflexivity.
Defined.

Section QueueDiscipline.

Import Main.
Variables Frame Encoding : Type.
Variable face_locations : Frame -> list box.
Variable face_encodings : Frame -> list box -> list Encoding.
Variable compare_faces : list Encoding -> Encoding -> list bool.

(** C2, as amended.  In every reachable state the frame queue and the
    result queue have capacity 1 and the listener's text queue is
    unbounded.  The main loop drops a frame, without waiting, when the
    frame queue is full; the recognition worker waits with its result while
    the result queue is full (the result is kept, not dropped); the
    listener's [put] never waits and never drops. *)
Theorem queue_discipline (s : loop_state Frame) :
  reachable s ->
  (maxsize (frame_queue s) = 1%Z
   /\ maxsize (result_queue s) = 1%Z
   /\ maxsize (ASR.text_queue (asr_listener s)) = 0%Z)
  /\ (forall frame,
        full (frame_queue s) = true ->
        submit_frame frame s = Ready (set_frame_count (frame_count s + 1) s))
  /\ (forall known_faces frame fq,
        get (frame_queue s) = Ready (Some frame, fq) ->
        full (result_queue s) = true ->
        recognize_faces_worker_pass Frame Encoding face_locations face_encodings
          compare_faces known_faces (frame_queue s) (result_queue s)
        = BlockedOnPut Frame fq
            (recognize_frame Frame Encoding face_locations face_encodings
               compare_faces known_faces frame))
  /\ (forall env, ASR._listen_worker_pass env (asr_listener s) <> WouldBlock)
  /\ (forall env audio text,
        ASR.tts_speaking env <> Some true ->
        ASR.heard env = ASR.Heard audio ->
        ASR.recognize env audio = ASR.Recognized text ->
        exists l evs,
          ASR._listen_worker_pass env (asr_listener s) = Ready (l, evs)
          /\ items (ASR.text_queue l)
             = items (ASR.text_queue (asr_listener s)) ++ [text]).
Proof.
  intros R. pose proof (reachable_capacities Frame s R) as (Hf & Hr & Ht).
  split; [auto|]. split; [|split; [|split]].
  - intros frame F. rewrite submit_frame_spec, F.
    rewrite andb_false_r. reflexivity.
  - intros known_faces frame fq Hg F. unfold recognize_faces_worker_pass.
    rewrite Hg, put_when_full by exact F. reflexivity.
  - intros env. unfold ASR._listen_worker_pass.
    destruct (ASR.tts_speaking env) as [[|]|]; try discriminate;
      (destruct (ASR.heard env) as [audio| | |]; try discriminate;
       destruct (ASR.recognize env audio); try discriminate;
       rewrite put_when_not_full by (apply unbounded_never_full; exact Ht);
       discriminate).
  - intros env audio text Hs Hh Hrec. unfold ASR._listen_worker_pass.
    rewrite Hh, Hrec,
      put_when_not_full by (apply unbounded_never_full; exact Ht).
    destruct (ASR.tts_speaking env) as [[|]|]; [congruence| |];
      do 2 eexists; split; reflexivity.
Qed.

End QueueDiscipline.

(** C2 on the state before the first pass. *)
Lemma queue_discipline_witness :
  maxsize (Main.frame_queue Sample.start) = 1%Z
  /\ maxsize (Main.result_queue Sample.start) = 1%Z
  /\ maxsize (ASR.text_queue (Main.asr_listener Sample.start)) = 0%Z.
Proof.
  exact (proj1 (queue_discipline nat Z Sample.toy_locations Sample.toy_encodings
                  Sample.toy_compare Sample.start (Main.reach_initial nat false None))).
Defined.

(** C2 as first stated fails twice over.  The text queue of the listener is
    not of capacity 1: it is unbounded, and two recognized sentences are both
    kept.  And the producer of the result queue does not drop: on a full
    result queue the worker waits with its result. *)
Lemma queue_discipline_counterexample :
  maxsize (ASR.text_queue (fst ASR.init)) <> 1%Z
  /\ (exists l evs,
        ASR._listen_worker [Sample.hears "guard my room"; Sample.hears "quit"]
          (fst (ASR.start_listening (fst ASR.init))) = Ready (l, evs)
        /\ items (ASR.text_queue l) = ["guard my room"; "quit"]%string)
  /\ Main.recognize_faces_worker_pass nat Z Sample.toy_locations
       Sample.toy_encodings Sample.toy_compare Sample.household
       Sample.frame_waiting Sample.result_unread
     = Main.BlockedOnPut nat (mkQueue 1 [])
         [((40, 200, 240, 80)%Z, "alice"%string)].
Proof.
  split; [discriminate|]. split; [|reflexivity].
  do 2 eexists. split; reflexivity.
Qed.

Section SpeechInput.

Import Main.
Variable Frame : Type.
Implicit Types s : loop_state Frame.

(** C3.  When [conversation_mode] is set, the utterance read from the
    listener is given to [process_intruder_response], the reply is spoken
    with [text_to_speech_async], the timeout becomes the current time plus
    60, and no voice command is carried out: the loop continues, with
    [guard_mode] and [conversation_mode] as they were, whatever the text. *)
Theorem utterance_in_conversation (run : string -> LLM.generation) (now : Q)
    s (text : string) (rest : list string) :
  conversation_mode s = true ->
  items (ASR.text_queue (asr_listener s)) = text :: rest ->
  exists reply m evs s',
    LLM.process_intruder_response run (conversation_manager s) text
    = (reply, m, evs)
    /\ speech_input run now s
       = Continue s'
           ([Print ("[VOICE COMMAND]: " ++ text); Print ("[INTRUDER]: " ++ text)]
            ++ evs ++ [Print ("[SECURITY AI]: " ++ reply); SpeakAsync reply])
    /\ conversation_manager s' = m
    /\ conversation_timeout s' = (now + 60)%Q
    /\ conversation_mode s' = true
    /\ guard_mode s' = guard_mode s
    /\ items (ASR.text_queue (asr_listener s')) = rest.
Proof.
  intros M Hi.
  destruct (LLM.process_intruder_response run (conversation_manager s) text)
    as [[reply m] evs] eqn:E.
  exists reply, m, evs. eexists. split; [reflexivity|].
  unfold speech_input, ASR.has_text, ASR.get_text, get_nowait, empty, qsize.
  rewrite Hi. cbn [length negb Z.of_nat Z.eqb].
  cbn [conversation_mode set_asr_listener]. rewrite M.
  unfold intruder_reply.
  cbn [conversation_manager conversation_mode set_asr_listener]. rewrite E.
  split; [reflexivity|]. repeat split. exact M.
Qed.

Lemma speech_input_command (run : string -> LLM.generation) (now : Q)
    s (text : string) (rest : list string) :
  conversation_mode s = false ->
  items (ASR.text_queue (asr_listener s)) = text :: rest ->
  speech_input run now s
  = let '(quit, s1, evs) :=
      voice_command text
        (set_asr_listener
           (ASR.mkListener (ASR.listening (asr_listener s))
              (mkQueue (maxsize (ASR.text_queue (asr_listener s))) rest)) s) in
    if quit then Break s1 (Print ("[VOICE COMMAND]: " ++ text) :: evs)
    else Continue s1 (Print ("[VOICE COMMAND]: " ++ text) :: evs).
Proof.
  intros M Hi.
  assert (E : empty (ASR.text_queue (asr_listener s)) = false).
  { apply not_true_iff_false. intros E. apply empty_items in E. congruence. }
  unfold speech_input, ASR.has_text. rewrite E. cbn [negb].
  unfold ASR.get_text, get_nowait. rewrite Hi.
  change (conversation_mode (set_asr_listener ?l s)) with (conversation_mode s).
  rewrite M. reflexivity.
Qed.

(** C5.  When [conversation_mode] is off, an utterance whose lower-case
    form contains "guard" and "room" turns [guard_mode] on, also when it
    contains "stop"; the deactivation branch is taken exactly for the
    utterances that contain "stop" and "guard" but not "room", and it
    clears [guard_mode] and [conversation_mode] and ends the
    conversation. *)
Theorem guard_command_precedence (run : string -> LLM.generation) (now : Q)
    s (text : string) (rest : list string) :
  conversation_mode s = false ->
  items (ASR.text_queue (asr_listener s)) = text :: rest ->
  (PyStr.contains "guard" (PyStr.lower text) = true ->
   PyStr.contains "room" (PyStr.lower text) = true ->
   exists s' out,
     speech_input run now s = Continue s' out
     /\ guard_mode s' = true
     /\ conversation_mode s' = false
     /\ conversation_manager s' = conversation_manager s)
  /\ (In (Print "GUARD MODE DEACTIVATED") (events_of (speech_input run now s))
      <-> PyStr.contains "stop" (PyStr.lower text) = true
          /\ PyStr.contains "guard" (PyStr.lower text) = true
          /\ PyStr.contains "room" (PyStr.lower text) = false)
  /\ (PyStr.contains "stop" (PyStr.lower text) = true ->
      PyStr.contains "guard" (PyStr.lower text) = true ->
      PyStr.contains "room" (PyStr.lower text) = false ->
      exists s' out,
        speech_input run now s = Continue s' out
        /\ guard_mode s' = false
        /\ conversation_mode s' = false
        /\ LLM.conversation_active (conversation_manager s') = false).
Proof.
  intros M Hi. rewrite (speech_input_command run now s text rest M Hi).
  set (s0 := set_asr_listener _ s).
  assert (M0 : conversation_mode s0 = false) by exact M.
  assert (C0 : conversation_manager s0 = conversation_manager s) by reflexivity.
  clearbody s0. unfold voice_command.
  destruct (PyStr.contains "guard" (PyStr.lower text)) eqn:G;
    destruct (PyStr.contains "room" (PyStr.lower text)) eqn:Rm;
    destruct (PyStr.contains "stop" (PyStr.lower text)) eqn:St;
    cbn [andb].
  all: try (destruct (PyStr.any_in ["quit"; "exit"; "close"] (PyStr.lower text))).
  all: try (destruct (LLM.is_conversation_active _) eqn:Act).
  all: cbn [events_of LLM.end_conversation].
  all: split; [|split].
  all: try (intros; discriminate).
  all: try (intros; do 2 eexists; split; [reflexivity|];
            cbn in *; repeat split; auto; congruence).
  all: try (split; [ intros H; cbn in H; exfalso;
                     repeat (destruct H as [H|H]; [discriminate H|]); exact H
                   | intros (? & ? & ?); discriminate ]).
  all: try (split; [ intros _; repeat split | intros _; cbn; auto 6 ]).
Qed.

End SpeechInput.

(** C3 on a sample: during a conversation even "quit" is answered as the
    intruder's words, and the loop goes on. *)
Lemma utterance_in_conversation_witness :
  exists reply m evs s',
    LLM.process_intruder_response (fun _ => LLM.GenerationFailed "no model")
      (Main.conversation_manager (Sample.with_text "quit" Sample.in_conversation))
      "quit" = (reply, m, evs)
    /\ Main.speech_input (fun _ => LLM.GenerationFailed "no model") 130
         (Sample.with_text "quit" Sample.in_conversation)
       = Main.Continue s'
           ([Print "[VOICE COMMAND]: quit"; Print "[INTRUDER]: quit"]
            ++ evs ++ [Print ("[SECURITY AI]: " ++ reply); SpeakAsync reply])
    /\ Main.conversation_manager s' = m
    /\ Main.conversation_timeout s' = (130 + 60)%Q
    /\ Main.conversation_mode s' = true
    /\ Main.guard_mode s' = true
    /\ items (ASR.text_queue (Main.asr_listener s')) = [].
Proof.
  exact (utterance_in_conversation nat (fun _ => LLM.GenerationFailed "no model") 130
           (Sample.with_text "quit" Sample.in_conversation) "quit" []
           eq_refl eq_refl).
Defined.

(** C5 on the sentence "Stop guarding my room": guard mode is turned on. *)
Lemma guard_command_precedence_witness :
  exists s' out,
    Main.speech_input (fun _ => LLM.GenerationFailed "no model") 50
      (Sample.with_text "Stop guarding my room" Sample.start)
    = Main.Continue s' out
    /\ Main.guard_mode s' = true
    /\ Main.conversation_mode s' = false
    /\ Main.conversation_manager s' = Main.conversation_manager Sample.start.
Proof.
  exact (proj1 (guard_command_precedence nat (fun _ => LLM.GenerationFailed "no model") 50
                  (Sample.with_text "Stop guarding my room" Sample.start)
                  "Stop guarding my room" [] eq_refl eq_refl)
           eq_refl eq_refl).
Defined.

(** ** The conversation flags agree *)

Section Consistency.

Import Main.
Variable Frame : Type.
Implicit Types s : loop_state Frame.
Implicit Types env : pass_env Frame.

Lemma generate_response_active (run : string -> LLM.generation)
    (m : LLM.Manager) (text : string) :
  LLM.conversation_active (snd (fst (LLM._generate_response run m text)))
  = LLM.conversation_active m.
Proof.
  unfold LLM._generate_response.
  match goal with |- context [let '(_, _) := ?X in _] => destruct X end.
  reflexivity.
Qed.

Lemma process_intruder_response_active (run : string -> LLM.generation)
    (m : LLM.Manager) (text : string) :
  LLM.conversation_active
    (snd (fst (LLM.process_intruder_response run m text))) = true.
Proof.
  unfold LLM.process_intruder_response.
  destruct (LLM.conversation_active m) eqn:A; cbn [negb]; [|reflexivity].
  pose proof (generate_response_active run m text) as G.
  destruct (LLM._generate_response run m text) as [[r m'] o].
  cbn [fst snd] in *. congruence.
Qed.

Lemma on_face_consistent (now : Q) s out (f : face) :
  consistent s -> consistent (fst (on_face now (s, out) f)).
Proof.
  intros C. unfold on_face.
  destruct (String.eqb (snd f) "Unknown"
            && Qgtb (now - last_unknown_alert_time s) 10); [|exact C].
  destruct (conversation_mode s) eqn:M; cbn.
  - intros _. apply C. exact M.
  - intros _. reflexivity.
Qed.

Lemma fold_on_face_consistent (now : Q) (faces : list face) : forall s out,
  consistent s -> consistent (fst (fold_left (on_face now) faces (s, out))).
Proof.
  induction faces as [|f faces IH]; intros s out C; [exact C|].
  cbn [fold_left]. pose proof (on_face_consistent now s out f C) as C1.
  destruct (on_face now (s, out) f) as [s1 out1]. apply IH. exact C1.
Qed.

Lemma guard_check_consistent (now : Q) s :
  consistent s -> consistent (fst (guard_check now s)).
Proof.
  intros C. unfold guard_check. destruct (guard_mode s); [|exact C].
  apply fold_on_face_consistent. exact C.
Qed.

Lemma voice_command_consistent (text : string) s :
  consistent s -> consistent (snd (fst (voice_command text s))).
Proof.
  intros C. unfold voice_command.
  destruct (_ && _); [exact C|].
  destruct (_ && _).
  - destruct (LLM.is_conversation_active _); cbn; intros H; discriminate.
  - destruct (PyStr.any_in _ _); exact C.
Qed.

Lemma speech_input_consistent (run : string -> LLM.generation) (now : Q)
    s s' out :
  consistent s ->
  speech_input run now s = Continue s' out ->
  consistent s'.
Proof.
  intros C. unfold speech_input.
  destruct (ASR.has_text (asr_listener s)).
  2:{ intros E. injection E as <- _. exact C. }
  destruct (ASR.get_text (asr_listener s)) as [[text|] l]; [|discriminate].
  change (conversation_mode (set_asr_listener l s)) with (conversation_mode s).
  destruct (conversation_mode s) eqn:M.
  - unfold intruder_reply.
    pose proof (process_intruder_response_active run
                  (conversation_manager (set_asr_listener l s)) text) as A.
    destruct (LLM.process_intruder_response _ _ _) as [[reply m] evs].
    intros E. injection E as <- _. intros _. exact A.
  - pose proof (voice_command_consistent text (set_asr_listener l s)) as V.
    destruct (voice_command text (set_asr_listener l s)) as [[quit s1] evs].
    destruct quit; [discriminate|]. intros E. injection E as <- _.
    apply V. intros H. cbn in H. congruence.
Qed.

Lemma acquire_consistent (frame : Frame) s s2 :
  consistent s -> acquire frame s = Ready s2 -> consistent s2.
Proof.
  intros C Ha.
  destruct (acquire_spec Frame frame s s2 Ha) as (_ & _ & _ & Hm & Hc & _).
  unfold consistent. rewrite Hm, Hc. exact C.
Qed.

Lemma pass_prefix_consistent env s s5 out5 :
  consistent s -> pass_prefix env s = Continue s5 out5 -> consistent s5.
Proof.
  intros C. unfold pass_prefix.
  destruct (capture env) as [frame|]; [|discriminate].
  destruct (acquire frame s) as [s2|] eqn:Ha; [|discriminate].
  pose proof (guard_check_consistent (clock_guard env) s2
                (acquire_consistent frame s s2 C Ha)) as C3.
  destruct (guard_check (clock_guard env) s2) as [s3 out3].
  destruct (display (key env) s3) as [[|] out4]; [discriminate|].
  destruct (speech_input (generator_run env) (clock_asr env) s3)
    as [s5' out5'| | |] eqn:Hs; try discriminate.
  intros E. injection E as <- _.
  exact (speech_input_consistent _ _ s3 s5' out5' C3 Hs).
Qed.

Lemma check_timeout_consistent (now : Q) s :
  consistent s -> consistent (fst (check_timeout now s)).
Proof.
  intros C. unfold check_timeout.
  destruct (conversation_mode s && Qgtb now (conversation_timeout s)); [|exact C].
  cbn [conversation_manager set_conversation].
  destruct (LLM.is_conversation_active (conversation_manager s));
    cbn; intros H; discriminate.
Qed.

Lemma reachable_consistent s : reachable s -> consistent s.
Proof.
  induction 1 as [available load_error | s env s' out _ IH Hp | s s' _ IH Hi].
  - intros H. discriminate.
  - unfold loop_pass in Hp.
    destruct (pass_prefix env s) as [s5 out5| | |] eqn:P; try discriminate.
    pose proof (check_timeout_consistent (clock_check env) s5
                  (pass_prefix_consistent env s s5 out5 IH P)) as C6.
    destruct (check_timeout (clock_check env) s5) as [s6 out6].
    injection Hp as <- _. exact C6.
  - destruct Hi; exact IH.
Qed.

(** C4.  If, when a pass reaches the timeout check, [conversation_mode] is
    set and the clock reads more than [conversation_timeout], then in that
    pass [conversation_mode] is cleared, the conversation summary is
    printed, [end_conversation] is called and the final warning is handed
    to [text_to_speech_async]. *)
Theorem conversation_timeout_fires env s s5 out5 :
  reachable s ->
  pass_prefix env s = Continue s5 out5 ->
  conversation_mode s5 = true ->
  (conversation_timeout s5 < clock_check env)%Q ->
  exists s6,
    loop_pass env s
    = Continue s6
        (out5
         ++ [Print "Conversation timeout. Ending conversation with intruder.";
             Print (LLM.get_conversation_summary (conversation_manager s5))]
         ++ snd (LLM.end_conversation (conversation_manager s5))
         ++ [SpeakAsync final_warning])
    /\ conversation_mode s6 = false
    /\ conversation_manager s6
       = fst (LLM.end_conversation (conversation_manager s5))
    /\ LLM.conversation_active (conversation_manager s6) = false.
Proof.
  intros R P M T.
  pose proof (pass_prefix_consistent env s s5 out5 (reachable_consistent s R) P M)
    as A.
  unfold loop_pass. rewrite P. unfold check_timeout. rewrite M.
  assert (G : Qgtb (clock_check env) (conversation_timeout s5) = true).
  { unfold Qgtb. apply negb_true_iff. apply not_true_iff_false.
    intros L. apply Qle_bool_iff in L. apply Qlt_not_le in T. contradiction. }
  rewrite G. cbn [andb conversation_manager set_conversation].
  unfold LLM.is_conversation_active. rewrite A.
  eexists. split; [reflexivity|]. repeat split.
Qed.

End Consistency.

(** C4 on a sample run: guard mode is turned on by voice, the worker reports
    an unknown face, the alert at time 100 opens a conversation with timeout
    160, and at the timeout check of that pass the clock reads 200. *)
Lemma conversation_timeout_fires_witness :
  exists s6 out,
    Main.loop_pass Sample.slow_pass Sample.intruder_seen = Main.Continue s6 out
    /\ In (SpeakAsync Main.final_warning) out
    /\ Main.conversation_mode s6 = false
    /\ LLM.conversation_active (Main.conversation_manager s6) = false.
Proof.
  assert (R : Main.reachable Sample.intruder_seen).
  { apply Main.reach_interference with (s := Sample.guarding).
    - apply Main.reach_pass
        with (s := Sample.with_text "guard my room" Sample.start)
             (env := Sample.quiet 1 10)
             (out := Main.events_of
                       (Main.loop_pass (Sample.quiet 1 10)
                          (Sample.with_text "guard my room" Sample.start))).
      + apply Main.reach_interference with (s := Sample.start).
        * apply Main.reach_initial.
        * exact (Main.listener_puts nat Sample.start "guard my room"
                   (mkQueue 0 ["guard my room"%string]) eq_refl).
      + vm_compute. reflexivity.
    - exact (Main.worker_puts nat Sample.guarding
               [(Sample.a_box, "Unknown"%string)]
               (mkQueue 1 [[(Sample.a_box, "Unknown"%string)]]) eq_refl). }
  destruct (conversation_timeout_fires nat Sample.slow_pass Sample.intruder_seen
              _ _ R eq_refl eq_refl eq_refl) as (s6 & E & M & _ & A).
  exists s6. eexists. split; [exact E|]. split; [|split; [exact M|exact A]].
  apply in_or_app. right. apply in_or_app. right. apply in_or_app. right.
  left. reflexivity.
Defined.

(** ** The guard check *)

Section GuardCheck.

Import Main.
Variable Frame : Type.
Implicit Types s : loop_state Frame.
Implicit Types env : pass_env Frame.

Lemma no_second_alert (now : Q) : Qgtb (now - now) 10 = false.
Proof.
  unfold Qgtb. apply negb_false_iff. apply Qle_bool_iff. lra.
Qed.

(** Once the alert time is the current time, the remaining faces of the
    pass change nothing. *)
Lemma fold_on_face_after_alert (now : Q) (faces : list face) : forall s out,
  last_unknown_alert_time s = now ->
  fold_left (on_face now) faces (s, out) = (s, out).
Proof.
  induction faces as [|f faces IH]; intros s out L; [reflexivity|].
  cbn [fold_left]. unfold on_face at 2.
  rewrite L, no_second_alert, andb_false_r. apply IH. exact L.
Qed.

Lemma fold_on_face_alert (now : Q) (faces : list face) : forall s out,
  In "Unknown"%string (map snd faces) ->
  Qgtb (now - last_unknown_alert_time s) 10 = true ->
  fold_left (on_face now) faces (s, out)
  = (set_last_unknown_alert_time now
       (if conversation_mode s then s
        else set_conversation
               (snd (fst (LLM.start_conversation (conversation_manager s))))
               true (now + 60) s),
     out ++ alert_banner
     ++ (if conversation_mode s then []
         else [Print "Starting conversation with intruder...";
               Print "LLM: Started conversation with intruder";
               SpeakAsync LLM.opening])).
Proof.
  induction faces as [|f faces IH]; intros s out Hin G; [contradiction|].
  cbn [fold_left]. unfold on_face at 2.
  destruct (String.eqb (snd f) "Unknown") eqn:E.
  - rewrite G. cbn [andb].
    destruct (conversation_mode s); cbn [negb];
      unfold LLM.start_conversation; cbv beta iota zeta;
      rewrite fold_on_face_after_alert by reflexivity; reflexivity.
  - cbn [andb]. apply IH; [|exact G].
    destruct Hin as [H|H]; [|exact H].
    apply String.eqb_neq in E. contradiction.
Qed.

(** C1, as amended.  In a pass in which, at the guard check, [guard_mode]
    is set, the recognition results contain a face named "Unknown" and
    more than 10 seconds have passed since the last alert, the alert is
    printed once and the alert time becomes the current time; if moreover
    [conversation_mode] is not set, a conversation is started with
    [start_conversation], its opening message is handed to
    [text_to_speech_async], [conversation_mode] is set and the timeout
    becomes the current time plus 60.  These events open the events of the
    pass. *)
Theorem unknown_face_challenge env s (frame : Frame) s2 :
  capture env = Some frame ->
  acquire frame s = Ready s2 ->
  guard_mode s2 = true ->
  In "Unknown"%string (map snd (recognized_faces s2)) ->
  (10 < clock_guard env - last_unknown_alert_time s2)%Q ->
  guard_check (clock_guard env) s2
  = (set_last_unknown_alert_time (clock_guard env)
       (if conversation_mode s2 then s2
        else set_conversation
               (snd (fst (LLM.start_conversation (conversation_manager s2))))
               true (clock_guard env + 60) s2),
     alert_banner
     ++ (if conversation_mode s2 then []
         else [Print "Starting conversation with intruder...";
               Print "LLM: Started conversation with intruder";
               SpeakAsync LLM.opening]))
  /\ fst (fst (LLM.start_conversation (conversation_manager s2))) = LLM.opening
  /\ exists rest,
       events_of (loop_pass env s)
       = snd (guard_check (clock_guard env) s2) ++ rest.
Proof.
  intros Hc Ha Hg Hin Ht.
  assert (G : Qgtb (clock_guard env - last_unknown_alert_time s2) 10 = true).
  { unfold Qgtb. apply negb_true_iff. apply not_true_iff_false.
    intros L. apply Qle_bool_iff in L. apply Qlt_not_le in Ht. contradiction. }
  split; [|split; [reflexivity|]].
  - unfold guard_check. rewrite Hg.
    rewrite (fold_on_face_alert (clock_guard env) _ s2 [] Hin G). reflexivity.
  - unfold loop_pass, pass_prefix. rewrite Hc, Ha.
    destruct (guard_check (clock_guard env) s2) as [s3 out3]. cbn [snd].
    destruct (display (key env) s3) as [[|] out4]; [eexists; reflexivity|].
    destruct (speech_input (generator_run env) (clock_asr env) s3)
      as [s5 out5|s5 out5| |] eqn:Hs.
    + destruct (check_timeout (clock_check env) s5) as [s6 out6].
      cbn [events_of]. rewrite <- !app_assoc. eexists. reflexivity.
    + cbn [events_of]. eexists. reflexivity.
    + destruct (speech_input_shape Frame (generator_run env) (clock_asr env) s3)
        as (? & ? & _ & _ & _ & _ & _ & [H|H] & _); congruence.
    + destruct (speech_input_shape Frame (generator_run env) (clock_asr env) s3)
        as (? & ? & _ & _ & _ & _ & _ & [H|H] & _); congruence.
Qed.

End GuardCheck.

(** C1 on the sample run: with guard mode on, the unknown face is challenged. *)
Lemma unknown_face_challenge_witness :
  exists rest,
    Main.events_of (Main.loop_pass Sample.slow_pass Sample.intruder_seen)
    = (Main.alert_banner
       ++ [Print "Starting conversation with intruder...";
           Print "LLM: Started conversation with intruder";
           SpeakAsync LLM.opening])
      ++ rest.
Proof.
  destruct (unknown_face_challenge nat Sample.slow_pass Sample.intruder_seen
              2%nat _ eq_refl eq_refl eq_refl (or_introl eq_refl) eq_refl)
    as (G & _ & rest & E).
  exists rest. rewrite E, G. reflexivity.
Defined.

(** C1 as first stated fails: an unknown face among the results raises no
    challenge while guard mode is off, nor within 10 seconds of the last
    alert. *)
Lemma unknown_face_challenge_counterexample :
  (exists s',
      Main.loop_pass (Sample.quiet 1 100) Sample.unguarded_intruder
      = Main.Continue s' [DestroyWindow; Sleep (1 # 10)]
      /\ In "Unknown"%string (map snd (Main.recognized_faces s')))
  /\ (exists s',
        Main.loop_pass (Sample.quiet 2 100) Sample.recently_alerted
        = Main.Continue s' [Imshow ["Unknown"%string]]
        /\ In "Unknown"%string (map snd (Main.recognized_faces s'))).
Proof.
  split; eexists; (split; [vm_compute; reflexivity|left; reflexivity]).
Qed.

(** ** Loading the known faces *)

Section DictFacts.

Import FaceRecognition.
Context {V : Type}.

Lemma get_dict_set_same (k : string) (v : V) (d : dict V) :
  get k (dict_set k v d) = Some v.
Proof.
  induction d as [|[k' v'] d IH]; cbn.
  - rewrite String.eqb_refl. reflexivity.
  - destruct (String.eqb k k') eqn:E; cbn.
    + rewrite String.eqb_refl. reflexivity.
    + rewrite E. exact IH.
Qed.

Lemma get_dict_set_other (k k' : string) (v : V) (d : dict V) :
  String.eqb k k' = false -> get k (dict_set k' v d) = get k d.
Proof.
  intros N. induction d as [|[k2 v2] d IH]; cbn.
  - rewrite N. reflexivity.
  - destruct (String.eqb k' k2) eqn:E; cbn.
    + apply String.eqb_eq in E. subst k2. rewrite N. reflexivity.
    + destruct (String.eqb k k2); [reflexivity|exact IH].
Qed.


End DictFacts.

Section LoadFacts.

Import FaceRecognition.
Variables Image Encoding : Type.
Variable load_image_file : string -> load_result Image.
Variable face_encodings : Image -> encode_result Encoding.

Let first_encoding := first_encoding Image Encoding load_image_file face_encodings.
Let image_error := image_error Image Encoding load_image_file face_encodings.
Let encodings_of := encodings_of Image Encoding load_image_file face_encodings.
Let load_one := load_one Image Encoding load_image_file face_encodings.
Let load_images := load_images Image Encoding load_image_file face_encodings.

(** One image: its first encoding is appended if there is one; an
    exception is printed and the encodings are left as they were. *)
Lemma load_one_spec (image_path : string) (encodings : list Encoding) :
  load_one image_path encodings
  = (encodings ++ match first_encoding image_path with
                  | Some e => [e]
                  | None => []
                  end,
     match image_error image_path with
     | Some e => [error_line image_path e]
     | None => []
     end).
Proof.
  unfold load_one, first_encoding, image_error, FaceRecognition.load_one,
    FaceRecognition.first_encoding, FaceRecognition.image_error, error_line.
  destruct (load_image_file image_path) as [image|e|e];
    rewrite ?app_nil_r; try reflexivity.
  destruct (face_encodings image) as [[|first more]|e];
    rewrite ?app_nil_r; reflexivity.
Qed.

Lemma load_images_spec (person_dir : string) (image_names : list string) :
  forall encodings,
    fst (load_images person_dir image_names encodings)
    = encodings ++ encodings_of person_dir image_names
    /\ forall image_name e,
         In image_name image_names ->
         image_error (path_join person_dir image_name) = Some e ->
         In (error_line (path_join person_dir image_name) e)
            (snd (load_images person_dir image_names encodings)).
Proof.
  induction image_names as [|name names IH]; intros encodings.
  - cbn. rewrite app_nil_r. split; [reflexivity|]. intros ? ? [].
  - unfold load_images, encodings_of. cbn [FaceRecognition.load_images
      FaceRecognition.encodings_of flat_map].
    fold load_images. fold load_one.
    rewrite load_one_spec.
    destruct (IH (encodings ++ match first_encoding (path_join person_dir name) with
                               | Some e => [e]
                               | None => []
                               end)) as [IH1 IH2].
    destruct (load_images person_dir names _) as [encodings2 out2].
    cbn [fst snd] in *. split.
    + rewrite IH1, <- app_assoc. reflexivity.
    + intros image_name e [<-|Hin] He.
      * rewrite He. apply in_or_app. left. left. reflexivity.
      * apply in_or_app. right. exact (IH2 image_name e Hin He).
Qed.

End LoadFacts.

Section PersonFacts.

Import FaceRecognition.
Variables Image Encoding : Type.
Variable ls : string -> list string.
Variable isdir : string -> bool.
Variable load_image_file : string -> load_result Image.
Variable face_encodings : Image -> encode_result Encoding.

Local Abbreviation listdir :=
  (fun path : string => @inl (list string) string (ls path)).
Local Abbreviation image_error :=
  (image_error Image Encoding load_image_file face_encodings).
Local Abbreviation encodings_of :=
  (encodings_of Image Encoding load_image_file face_encodings).
Local Abbreviation load_images :=
  (load_images Image Encoding load_image_file face_encodings).
Local Abbreviation load_persons :=
  (load_persons Image Encoding listdir isdir load_image_file face_encodings).
Local Abbreviation load_known_faces :=
  (load_known_faces Image Encoding listdir isdir load_image_file face_encodings).
Local Abbreviation person_encodings dataset_path p :=
  (encodings_of (path_join dataset_path p) (ls (path_join dataset_path p))).

(** The loop over the persons always comes to its end; a person is entered
    with the encodings of the images that could be processed, if there is at
    least one, and every image that raised has left its line. *)
Lemma load_persons_spec (dataset_path : string) (person_names : list string) :
  forall known_faces out,
  exists known_faces' extra,
    load_persons dataset_path person_names known_faces out
    = Return known_faces' (out ++ extra)
    /\ (forall p,
          get p known_faces'
          = if existsb (String.eqb p) person_names
               && isdir (path_join dataset_path p)
               && match person_encodings dataset_path p with
                  | [] => false
                  | _ :: _ => true
                  end
            then Some (person_encodings dataset_path p)
            else get p known_faces)
    /\ (forall p image_name e,
          In p person_names ->
          isdir (path_join dataset_path p) = true ->
          In image_name (ls (path_join dataset_path p)) ->
          image_error (path_join (path_join dataset_path p) image_name) = Some e ->
          In (error_line (path_join (path_join dataset_path p) image_name) e) extra).
Proof.
  induction person_names as [|name names IH]; intros known_faces out.
  - exists known_faces, []. rewrite app_nil_r. split; [reflexivity|].
    split; [reflexivity|]. intros ? ? ? [].
  - cbn [FaceRecognition.load_persons].
    destruct (isdir (path_join dataset_path name)) eqn:D.
    + destruct (load_images_spec Image Encoding load_image_file face_encodings
                  (path_join dataset_path name) (ls (path_join dataset_path name)) [])
        as [H1 H2].
      destruct (load_images (path_join dataset_path name)
                  (ls (path_join dataset_path name)) []) as [encodings out1].
      cbn [fst snd app] in H1, H2. subst encodings.
      destruct (IH (match person_encodings dataset_path name with
                    | [] => known_faces
                    | _ :: _ => dict_set name (person_encodings dataset_path name)
                                  known_faces
                    end) (out ++ out1)) as (kf & extra & E & Hget & Herr).
      exists kf, (out1 ++ extra). rewrite app_assoc. split; [exact E|]. split.
      * intros p. rewrite Hget. cbn [existsb].
        destruct (String.eqb p name) eqn:N.
        -- apply String.eqb_eq in N. subst p. rewrite D. cbn [orb andb].
           destruct (person_encodings dataset_path name) as [|e0 es] eqn:P.
           ++ rewrite !andb_false_r. reflexivity.
           ++ rewrite get_dict_set_same.
              destruct (existsb (String.eqb name) names); reflexivity.
        -- cbn [orb].
           destruct (existsb (String.eqb p) names
                     && isdir (path_join dataset_path p)
                     && match person_encodings dataset_path p with
                        | [] => false
                        | _ :: _ => true
                        end); [reflexivity|].
           destruct (person_encodings dataset_path name); [reflexivity|].
           apply get_dict_set_other. exact N.
      * intros p image_name e [<-|Hin] Hd Hi He; apply in_or_app.
        -- left. exact (H2 image_name e Hi He).
        -- right. exact (Herr p image_name e Hin Hd Hi He).
    + destruct (IH known_faces out) as (kf & extra & E & Hget & Herr).
      exists kf, extra. split; [exact E|]. split.
      * intros p. rewrite Hget. cbn [existsb].
        destruct (String.eqb p name) eqn:N; [|reflexivity].
        apply String.eqb_eq in N. subst p. rewrite D.
        rewrite !andb_false_r. reflexivity.
      * intros p image_name e [<-|Hin] Hd Hi He; [congruence|].
        exact (Herr p image_name e Hin Hd Hi He).
Qed.

End PersonFacts.

Section FailureHandling.

Import FaceRecognition.
Variables Image Encoding : Type.
Variable ls : string -> list string.
Variable isdir : string -> bool.
Variable load_image_file : string -> load_result Image.
Variable face_encodings : Image -> encode_result Encoding.

Local Abbreviation listdir :=
  (fun path : string => @inl (list string) string (ls path)).
Local Abbreviation image_error :=
  (image_error Image Encoding load_image_file face_encodings).
Local Abbreviation encodings_of :=
  (encodings_of Image Encoding load_image_file face_encodings).
Local Abbreviation load_known_faces :=
  (load_known_faces Image Encoding listdir isdir load_image_file face_encodings).
Local Abbreviation person_encodings dataset_path p :=
  (encodings_of (path_join dataset_path p) (ls (path_join dataset_path p))).


End FailureHandling.


(** Takes apart the existentials, conjunctions and disjunctions among the
    hypotheses. *)
Ltac break_hyps :=
  repeat match goal with
         | H : exists _, _ |- _ => destruct H
         | H : _ /\ _ |- _ => destruct H
         | H : _ \/ _ |- _ => destruct H
         end.

(** ** Recognizing one face *)

Section RecognizeFace.

Import FaceRecognition.
Variables Image Encoding : Type.
Variable load_image_file : string -> load_result Image.
Variable face_encodings : Image -> encode_result Encoding.
Variable compare_faces : list Encoding -> Encoding -> list bool.

Local Abbreviation any_match := (any_match Encoding compare_faces).
Local Abbreviation first_match := (first_match Encoding compare_faces).
Local Abbreviation recognize_face :=
  (recognize_face Image Encoding load_image_file face_encodings compare_faces).

(** The loop over the persons returns the first person, in the order of the
    map, one of whose encodings matches. *)
Lemma first_match_Some (known_faces : dict (list Encoding)) (e : Encoding)
    (p : string) :
  first_match known_faces e = Some p
  <-> exists before encodings after,
        known_faces = before ++ (p, encodings) :: after
        /\ any_match encodings e = true
        /\ Forall (fun q => any_match (snd q) e = false) before.
Proof.
  induction known_faces as [|[q encs] rest IH]; cbn [FaceRecognition.first_match].
  - split; [discriminate|]. intros (before & ? & ? & E & _).
    destruct before; discriminate.
  - destruct (any_match encs e) eqn:M.
    + split.
      * intros H. injection H as ->. exists [], encs, rest.
        split; [reflexivity|]. split; [exact M|constructor].
      * intros (before & encodings & after & E & Hm & Hb).
        destruct before as [|[q' encs'] before].
        -- cbn in E. injection E as -> _ _. reflexivity.
        -- cbn in E. injection E as <- <- _. inversion Hb as [|? ? Hq _]; subst.
           cbn in Hq. congruence.
    + rewrite IH. split.
      * intros (before & encodings & after & -> & Hm & Hb).
        exists ((q, encs) :: before), encodings, after.
        split; [reflexivity|]. split; [exact Hm|]. constructor; [exact M|exact Hb].
      * intros (before & encodings & after & E & Hm & Hb).
        destruct before as [|[q' encs'] before].
        -- cbn in E. injection E as _ <- _. congruence.
        -- cbn in E. injection E as _ _ ->. inversion Hb; subst.
           exists before, encodings, after. auto.
Qed.

Lemma first_match_None (known_faces : dict (list Encoding)) (e : Encoding) :
  first_match known_faces e = None
  <-> Forall (fun q => any_match (snd q) e = false) known_faces.
Proof.
  induction known_faces as [|[q encs] rest IH]; cbn [FaceRecognition.first_match].
  - split; [constructor|reflexivity].
  - destruct (any_match encs e) eqn:M.
    + split; [discriminate|]. intros H. inversion H as [|? ? Hq _]; subst.
      cbn in Hq. congruence.
    + rewrite IH. split.
      * intros H. constructor; [exact M|exact H].
      * intros H. inversion H; assumption.
Qed.

(** C10, as amended.  [recognize_face] returns [None] exactly when the file
    is not found or the image shows no face; an exception of loading other
    than [FileNotFoundError], or one of encoding, leaves the function.
    Otherwise, with [e] the first encoding found, it returns the name of the
    first person of the map, in its order, one of whose encodings matches
    [e], and "Unknown" when no person matches.  So whenever it returns, the
    value is [None], "Unknown" or a key of the map. *)
Theorem recognize_face_result (unknown_image_path : string)
    (known_faces : dict (list Encoding)) :
  ((exists out, recognize_face unknown_image_path known_faces = Return None out)
   <-> (exists e, load_image_file unknown_image_path = FileNotFound e)
       \/ (exists image, load_image_file unknown_image_path = Loaded image
                         /\ face_encodings image = Encodings []))
  /\ ((exists e out,
         recognize_face unknown_image_path known_faces = Propagate e out)
      <-> (exists e, load_image_file unknown_image_path = LoadFailed e)
          \/ (exists image e, load_image_file unknown_image_path = Loaded image
                              /\ face_encodings image = EncodeFailed e))
  /\ (forall image e more,
        load_image_file unknown_image_path = Loaded image ->
        face_encodings image = Encodings (e :: more) ->
        forall name,
          recognize_face unknown_image_path known_faces = Return (Some name) []
          <-> (exists before encodings after,
                  known_faces = before ++ (name, encodings) :: after
                  /\ any_match encodings e = true
                  /\ Forall (fun q => any_match (snd q) e = false) before)
              \/ (name = "Unknown"%string
                  /\ Forall (fun q => any_match (snd q) e = false) known_faces))
  /\ (forall value out,
        recognize_face unknown_image_path known_faces = Return value out ->
        value = None \/ value = Some "Unknown"%string
        \/ exists name, value = Some name /\ In name (keys known_faces)).
Proof.
  unfold FaceRecognition.recognize_face.
  destruct (load_image_file unknown_image_path) as [image|e0|e0] eqn:L;
    [destruct (face_encodings image) as [[|e more]|e1] eqn:F| |].
  all: split; [split|split; [split|split]].
  all: try (intros; break_hyps; congruence).
  all: try (intros; break_hyps; eauto 8; fail).
  - intros value out H. injection H as <- _. left. reflexivity.
  - intros (out & H). destruct (first_match known_faces e); discriminate.
  - intros (? & ? & H). destruct (first_match known_faces e); discriminate.
  - intros image' e' more' H F'. injection H as <-.
    rewrite F in F'. injection F' as <- <-. intros name.
    destruct (first_match known_faces e) as [p|] eqn:M.
    + split.
      * intros H. injection H as <-. left. apply first_match_Some. exact M.
      * intros [H|[_ H]].
        -- apply first_match_Some in H. congruence.
        -- apply first_match_None in H. congruence.
    + split.
      * intros H. injection H as <-. right. split; [reflexivity|].
        apply first_match_None. exact M.
      * intros [H|[-> _]]; [|reflexivity].
        apply first_match_Some in H. congruence.
  - intros value out H.
    destruct (first_match known_faces e) as [p|] eqn:M; injection H as <- _.
    + right. right. exists p. split; [reflexivity|].
      apply first_match_Some in M. destruct M as (before & encs & after & -> & _).
      unfold keys. rewrite map_app. apply in_or_app. right. left. reflexivity.
    + right. left. reflexivity.
  - intros value out H. injection H as <- _. left. reflexivity.
Qed.

End RecognizeFace.

(** C10 on the toy library: the probe matches alice first, so "alice" is
    returned. *)
Lemma recognize_face_result_witness :
  FaceRecognition.recognize_face Z Z Sample.toy_load Sample.toy_face_encodings
    Sample.toy_compare "probe.jpg" Sample.household
  = FaceRecognition.Return (Some "alice"%string) [].
Proof.
  destruct (recognize_face_result Z Z Sample.toy_load Sample.toy_face_encodings
              Sample.toy_compare "probe.jpg" Sample.household)
    as (_ & _ & H & _).
  apply (H 5%Z 5%Z [] eq_refl eq_refl "alice"%string).
  left. exists [], [0%Z], [("bob"%string, [10%Z])].
  split; [reflexivity|]. split; [reflexivity|constructor].
Defined.

(** C10 as first stated fails.  An image file that exists but cannot be read
    as an image makes [recognize_face] raise instead of returning; and a face
    that matches both alice and bob is returned as "alice" only, although it
    matches one of bob's encodings. *)
Lemma recognize_face_result_counterexample :
  FaceRecognition.recognize_face Z Z Sample.toy_load Sample.toy_face_encodings
    Sample.toy_compare "garbled.jpg" Sample.household
  = FaceRecognition.Propagate "cannot identify image file" []
  /\ FaceRecognition.recognize_face Z Z Sample.toy_load Sample.toy_face_encodings
       Sample.toy_compare "probe.jpg" Sample.household
     = FaceRecognition.Return (Some "alice"%string) []
  /\ FaceRecognition.any_match Z Sample.toy_compare [10%Z] 5%Z = true.
Proof.
  repeat split.
Qed.

(** ** The speaking flag *)

(** While [is_tts_speaking()] answers true, every pass of the listener's
    worker pauses: nothing is listened to and nothing is queued. *)
Lemma worker_paused_while_speaking
    (inputs : list (ASR.listen_outcome * (AudioData -> ASR.recognize_outcome)))
    (l : ASR.ASRListener) :
  exists evs,
    ASR._listen_worker
      (map (fun hr => ASR.mkPassEnv (Some true) (fst hr) (snd hr)) inputs) l
    = Ready (l, evs)
    /\ Forall (fun ev => ev = Print "ASR: Pausing (TTS is speaking)..."
                         \/ ev = Sleep (1 # 2)) evs.
Proof.
  induction inputs as [|hr inputs IH]; cbn [map ASR._listen_worker].
  - exists []. split; [reflexivity|constructor].
  - destruct (ASR.listening l); cbn [negb].
    + destruct IH as (evs & E & F). cbn [ASR._listen_worker_pass ASR.tts_speaking].
      rewrite E. eexists. split; [reflexivity|].
      cbn [app]. constructor; [left; reflexivity|].
      constructor; [right; reflexivity|exact F].
    + exists []. split; [reflexivity|constructor].
Qed.

(** C9.  [text_to_speech] stores [True] in [is_speaking] before its first
    library call.  Whichever library call raises, the function returns
    [False] and leaves [is_speaking] at [True]: the error is printed, the
    flag is not stored again.  From then on [is_tts_speaking()] answers true
    and the passes of the listener's worker only pause. *)
Theorem speaking_flag_left_set (text : string) (blocking is_speaking : bool) :
  (forall env, exists rest,
      snd (TTS.text_to_speech env text blocking is_speaking)
      = Print ("TTS module: Synthesizing speech for text: '" ++ text ++ "'")
        :: SetSpeaking true :: rest)
  /\ (forall st e polls, exists evs,
        TTS.text_to_speech (TTS.mkCallEnv (Some (st, e)) polls)
          text blocking is_speaking
        = (false, true, evs)
        /\ In (Raised st) evs
        /\ In (Print ("TTS Error: " ++ e)) evs
        /\ ~ In (SetSpeaking false) evs)
  /\ (forall st e polls inputs l,
        let flag :=
          snd (fst (TTS.text_to_speech (TTS.mkCallEnv (Some (st, e)) polls)
                      text blocking is_speaking)) in
        TTS.is_tts_speaking flag = true
        /\ exists evs,
             ASR._listen_worker
               (map (fun hr =>
                       ASR.mkPassEnv (Some (TTS.is_tts_speaking flag))
                         (fst hr) (snd hr)) inputs) l
             = Ready (l, evs)
             /\ ~ In Listen evs
             /\ forall audio, ~ In (RecognizeGoogle audio) evs).
Proof.
  assert (Fail : forall st e polls, exists evs,
             TTS.text_to_speech (TTS.mkCallEnv (Some (st, e)) polls)
               text blocking is_speaking
             = (false, true, evs)
             /\ In (Raised st) evs
             /\ In (Print ("TTS Error: " ++ e)) evs
             /\ ~ In (SetSpeaking false) evs).
  { intros st e polls. destruct st; eexists; (split; [reflexivity|]);
      (split; [cbn; auto 10|]); (split; [cbn; auto 10|]);
      cbn; intros H; repeat (destruct H as [H|H]; [discriminate H|]); exact H. }
  split; [|split; [exact Fail|]].
  - intros env. unfold TTS.text_to_speech.
    destruct (TTS.run_stages TTS.stages (option_map fst (TTS.fails env)))
      as [calls ok].
    destruct ok, blocking; cbn [negb app]; eexists; reflexivity.
  - intros st e polls inputs l flag.
    assert (Hf : flag = true).
    { subst flag. destruct (Fail st e polls) as (evs & -> & _). reflexivity. }
    rewrite Hf. split; [reflexivity|]. unfold TTS.is_tts_speaking.
    destruct (worker_paused_while_speaking inputs l) as (evs & E & F).
    exists evs. split; [exact E|].
    rewrite Forall_forall in F. split.
    + intros H. destruct (F _ H); discriminate.
    + intros audio H. destruct (F _ H); discriminate.
Qed.

(* ================================================================== *)
(** * Further results: the conversation manager *)

Section ConversationFacts.

Import LLM.

Lemma turn_count_app (m : Manager) (extra : list message) :
  turn_count (mkManager (conversation_active m)
                (conversation_history m ++ extra) (has_generator m))
  = (turn_count m
     + List.length (filter (fun x => role_eqb (msg_role x) intruder) extra))%nat.
Proof.
  unfold turn_count. cbn [conversation_history].
  rewrite filter_app, length_app. reflexivity.
Qed.

(** What [_generate_response] does to the manager: the two entries of the
    exchange are appended, nothing else changes. *)
Lemma generate_response_history (run : string -> generation) (m : Manager)
    (text : string) :
  snd (fst (_generate_response run m text))
  = mkManager (conversation_active m)
      (conversation_history m
       ++ [mkMessage intruder text;
           mkMessage assistant (fst (fst (_generate_response run m text)))])
      (has_generator m).
Proof.
  unfold _generate_response.
  match goal with |- context [let '(_, _) := ?X in _] => destruct X end.
  cbn [fst snd conversation_active conversation_history has_generator].
  rewrite <- app_assoc. reflexivity.
Qed.

Lemma process_active (run : string -> generation) (m : Manager) (text : string) :
  conversation_active m = true ->
  fst (fst (process_intruder_response run m text))
  = fst (fst (_generate_response run m text))
  /\ snd (fst (process_intruder_response run m text))
     = snd (fst (_generate_response run m text)).
Proof.
  intros A. unfold process_intruder_response. rewrite A. cbn [negb].
  destruct (_generate_response run m text) as [[reply m'] out]. split; reflexivity.
Qed.

Lemma converse_spec (turns : list ((string -> generation) * string)) :
  forall m,
    conversation_active m = true ->
    List.length (snd (converse turns m)) = List.length turns
    /\ conversation_active (fst (converse turns m)) = true
    /\ has_generator (fst (converse turns m)) = has_generator m
    /\ conversation_history (fst (converse turns m))
       = conversation_history m
         ++ exchanges (map snd turns) (snd (converse turns m)).
Proof.
  induction turns as [|[run text] turns IH]; intros m A.
  - cbn. rewrite app_nil_r. auto.
  - cbn [converse map snd].
    destruct (process_active run m text A) as [Hr Hm].
    pose proof (generate_response_history run m text) as Hh.
    destruct (process_intruder_response run m text) as [[reply m1] out].
    cbn [fst snd] in Hr, Hm. rewrite <- Hm, <- Hr in Hh. clear Hr Hm.
    assert (A1 : conversation_active m1 = true) by (rewrite Hh; exact A).
    destruct (IH m1 A1) as (Hl & Ha & Hg & Hc).
    destruct (converse turns m1) as [m2 replies]. cbn [fst snd] in *.
    split; [cbn [List.length]; rewrite Hl; reflexivity|]. split; [exact Ha|].
    split; [rewrite Hg, Hh; reflexivity|].
    rewrite Hc, Hh. cbn [conversation_history exchanges].
    rewrite <- app_assoc. reflexivity.
Qed.

Lemma exchanges_length (texts replies : list string) :
  List.length replies = List.length texts ->
  List.length (exchanges texts replies) = (2 * List.length texts)%nat
  /\ List.length (filter (fun x => role_eqb (msg_role x) intruder)
                    (exchanges texts replies)) = List.length texts.
Proof.
  revert replies. induction texts as [|t texts IH]; intros [|r replies] H;
    try discriminate; [split; reflexivity|].
  cbn in H. injection H as H. destruct (IH replies H) as [H1 H2].
  cbn [exchanges List.length filter msg_role role_eqb]. rewrite H1, H2. split; lia.
Qed.

(** X1.  After [start_conversation], however many utterances are processed,
    the conversation stays active and the history is the opening message
    followed by the exchanges in order: each utterance as the intruder said
    it, then the reply that was returned for it. *)
Theorem history_is_opening_then_exchanges
    (turns : list ((string -> generation) * string)) (m0 : Manager) :
  let started := snd (fst (start_conversation m0)) in
  let m := fst (converse turns started) in
  let replies := snd (converse turns started) in
  List.length replies = List.length turns
  /\ conversation_active m = true
  /\ conversation_history m
     = mkMessage assistant opening :: exchanges (map snd turns) replies.
Proof.
  cbv zeta.
  destruct (converse_spec turns (snd (fst (start_conversation m0))) eq_refl)
    as (Hl & Ha & _ & Hc).
  split; [exact Hl|]. split; [exact Ha|]. rewrite Hc. reflexivity.
Qed.

(** X2.  When such a conversation is ended, the number of exchanges that
    [end_conversation] prints is the number of utterances processed, which
    is also the turn count of the fallback rules. *)
Theorem exchanges_counted
    (turns : list ((string -> generation) * string)) (m0 : Manager) :
  let m := fst (converse turns (snd (fst (start_conversation m0)))) in
  turn_count m = List.length turns
  /\ snd (end_conversation m)
     = [Print ("LLM: Ended conversation (Total exchanges: "
               ++ PyStr.of_nat (List.length turns) ++ ")")]
  /\ conversation_active (fst (end_conversation m)) = false
  /\ conversation_history (fst (end_conversation m)) = conversation_history m.
Proof.
  cbv zeta.
  destruct (converse_spec turns (snd (fst (start_conversation m0))) eq_refl)
    as (Hl & _ & _ & Hc).
  destruct (exchanges_length (map snd turns)
              (snd (converse turns (snd (fst (start_conversation m0))))))
    as [H1 H2]; [rewrite Hl, length_map; reflexivity|].
  rewrite length_map in H1, H2.
  split; [|split; [|split; reflexivity]].
  - unfold turn_count. rewrite Hc, filter_app, length_app, H2. reflexivity.
  - unfold end_conversation. cbn [snd]. rewrite Hc, length_app, H1.
    cbn [start_conversation fst snd conversation_history List.length].
    replace ((1 + 2 * List.length turns) / 2)%nat with (List.length turns);
      [reflexivity|].
    apply (Nat.div_unique _ 2 _ 1); lia.
Qed.

End ConversationFacts.

Section ReplyFacts.

Import LLM.

(** The index into the default replies stays inside the list. *)
Lemma default_reply_cases (n : nat) :
  In (nth (Nat.min n (List.length responses - 1)) responses ""%string) responses.
Proof.
  apply nth_In. cbn [responses List.length Nat.sub].
  pose proof (Nat.le_min_r n 4). lia.
Qed.

(** Every reply of the fallback rules is one of eleven fixed sentences. *)
Lemma fallback_cases (m : Manager) (text : string) :
  In (_get_fallback_response m text)
     (first_turn_greeting
      :: "Hello. This is a restricted area. Who are you and why are you here?"%string
      :: "I see. Do you have authorization to be in this area? Can you provide a code or badge number?"%string
      :: "Please wait here while I verify your credentials. Security has been notified."%string
      :: "I must inform you that this area is under surveillance. Please comply or leave immediately."%string
      :: "You are in a restricted area. If you are lost, please leave the way you came and contact security."%string
      :: responses).
Proof.
  unfold _get_fallback_response.
  destruct (turn_count m =? 0)%nat; [left; reflexivity|].
  destruct (PyStr.any_in _ _); [right; left; reflexivity|].
  destruct (PyStr.any_in _ _); [do 2 right; left; reflexivity|].
  destruct (PyStr.any_in _ _); [do 3 right; left; reflexivity|].
  destruct (PyStr.any_in _ _); [do 4 right; left; reflexivity|].
  destruct (PyStr.any_in _ _); [do 5 right; left; reflexivity|].
  do 6 right. apply default_reply_cases.
Qed.

(** A property of strings that the opening message and all the fixed
    sentences of the fallback rules have holds of every reply, provided it
    holds of what is kept of a generated text. *)
Lemma reply_cases (P : string -> Prop) :
  P opening ->
  (forall m text, P (_get_fallback_response m text)) ->
  (forall full_response,
      let response :=
        PyStr.strip
          (PyStr.first_piece
             (PyStr.split PyStr.newline
                (PyStr.strip
                   (PyStr.last_piece (PyStr.split "Security AI:" full_response))))) in
      (String.length response =? 0)%nat = false ->
      (200 <? String.length response)%nat = false ->
      P response) ->
  forall run m text, P (fst (fst (process_intruder_response run m text))).
Proof.
  intros Ho Hf Hg run m text. unfold process_intruder_response.
  destruct (conversation_active m); cbn [negb]; [|exact Ho].
  unfold _generate_response.
  cbn [has_generator conversation_active conversation_history].
  destruct (has_generator m); cbn [negb]; [|apply Hf].
  destruct (run _) as [full_response|e]; [|apply Hf].
  cbv zeta.
  destruct (String.length _ =? 0)%nat eqn:E0; cbn [orb]; [apply Hf|].
  destruct (200 <? String.length _)%nat eqn:E1; [apply Hf|].
  cbn [fst]. apply Hg; assumption.
Qed.

(** X3.  Every reply that [process_intruder_response] returns is a
    non-empty text of at most 200 characters, whatever the generator
    produces and whether or not it fails. *)
Theorem reply_is_bounded (run : string -> generation) (m : Manager)
    (text : string) :
  let reply := fst (fst (process_intruder_response run m text)) in
  reply <> ""%string /\ (String.length reply <= 200)%nat.
Proof.
  cbv zeta.
  apply (reply_cases (fun r => r <> ""%string /\ (String.length r <= 200)%nat)).
  - split; [discriminate|]. apply Nat.leb_le. reflexivity.
  - intros m' text'. pose proof (fallback_cases m' text') as H.
    cbn [In responses] in H.
    repeat (destruct H as [H|H];
            [rewrite <- H; split; [discriminate|apply Nat.leb_le; reflexivity]|]).
    contradiction.
  - intros full_response response E0 E1. split.
    + intros H. rewrite H in E0. discriminate.
    + apply Nat.ltb_ge in E1. exact E1.
Qed.

(** X4.  Without a text generator, the greeting that the fallback rules keep
    for a history without intruder entries is never a reply: the utterance
    is entered in the history before the rules are consulted, so their turn
    count is at least one. *)
Theorem first_turn_greeting_is_never_given (run : string -> generation)
    (m : Manager) (text : string) :
  has_generator m = false ->
  fst (fst (process_intruder_response run m text)) <> first_turn_greeting.
Proof.
  intros G. unfold process_intruder_response.
  destruct (conversation_active m); cbn [negb]; [|discriminate].
  unfold _generate_response.
  cbn [has_generator conversation_active conversation_history].
  rewrite G. cbn [negb fst].
  unfold _get_fallback_response.
  unfold turn_count at 1. cbn [conversation_history].
  rewrite filter_app, length_app.
  cbn [filter msg_role role_eqb List.length]. fold (turn_count m).
  replace (turn_count m + 1 =? 0)%nat with false
    by (symmetry; apply Nat.eqb_neq; lia).
  destruct (PyStr.any_in _ _); [discriminate|].
  destruct (PyStr.any_in _ _); [discriminate|].
  destruct (PyStr.any_in _ _); [discriminate|].
  destruct (PyStr.any_in _ _); [discriminate|].
  destruct (PyStr.any_in _ _); [discriminate|].
  match goal with
  | |- nth (Nat.min ?n _) _ _ <> _ => pose proof (default_reply_cases n) as H
  end.
  cbn [In responses] in H.
  repeat (destruct H as [H|H]; [rewrite <- H; discriminate|]).
  contradiction.
Qed.

(** X5.  The prompt for the generator is built from the system prompt and
    the last six entries of the history only: earlier entries do not change
    it. *)
Theorem prompt_uses_last_six (older recent : list message) :
  (6 <= List.length recent)%nat ->
  conversation_text (older ++ recent) = conversation_text recent.
Proof.
  intros H. unfold conversation_text. f_equal. f_equal.
  rewrite length_app, skipn_app.
  rewrite skipn_all2 by lia. cbn [app]. f_equal. lia.
Qed.

End ReplyFacts.

(** X4 on a sample: a first "hello" is not answered with the greeting. *)
Lemma first_turn_greeting_is_never_given_witness :
  fst (fst (LLM.process_intruder_response
              (fun _ => LLM.GenerationFailed "no model")
              (Main.conversation_manager Sample.in_conversation) "hello"))
  <> LLM.first_turn_greeting.
Proof.
  apply (first_turn_greeting_is_never_given
           (fun _ => LLM.GenerationFailed "no model")
           (Main.conversation_manager Sample.in_conversation) "hello").
  reflexivity.
Defined.

(** X5 on a sample: a seventh, older entry does not reach the prompt. *)
Lemma prompt_uses_last_six_witness :
  LLM.conversation_text
    ([LLM.mkMessage LLM.assistant LLM.opening]
     ++ LLM.exchanges ["a"; "b"; "c"]%string ["x"; "y"; "z"]%string)
  = LLM.conversation_text
      (LLM.exchanges ["a"; "b"; "c"]%string ["x"; "y"; "z"]%string).
Proof.
  apply (prompt_uses_last_six [LLM.mkMessage LLM.assistant LLM.opening]
           (LLM.exchanges ["a"; "b"; "c"]%string ["x"; "y"; "z"]%string)).
  cbn. lia.
Defined.

(** ** Characters of Python strings *)

Section StringFacts.

Import PyStr.

Lemma chars_lstrip (c : ascii) (s : string) :
  In c (list_ascii_of_string (lstrip s)) -> In c (list_ascii_of_string s).
Proof.
  induction s as [|a s IH]; cbn [lstrip]; [auto|].
  destruct (isspace a); [|auto]. intros H. right. exact (IH H).
Qed.

Lemma chars_rev_onto (s : string) : forall acc,
  list_ascii_of_string (rev_onto s acc)
  = List.rev (list_ascii_of_string s) ++ list_ascii_of_string acc.
Proof.
  induction s as [|a s IH]; intros acc; cbn [rev_onto]; [reflexivity|].
  rewrite IH. cbn [list_ascii_of_string List.rev]. rewrite <- app_assoc.
  reflexivity.
Qed.

Lemma chars_rev (c : ascii) (s : string) :
  In c (list_ascii_of_string (rev s)) <-> In c (list_ascii_of_string s).
Proof.
  unfold rev. rewrite chars_rev_onto. cbn [list_ascii_of_string].
  rewrite app_nil_r. symmetry. apply in_rev.
Qed.

(** Stripping only removes characters. *)
Lemma chars_strip (c : ascii) (s : string) :
  In c (list_ascii_of_string (strip s)) -> In c (list_ascii_of_string s).
Proof.
  unfold strip, rstrip. intros H.
  apply (proj1 (chars_rev _ _)) in H. apply chars_lstrip in H.
  apply (proj1 (chars_rev _ _)) in H. apply chars_lstrip in H. exact H.
Qed.

(** The pieces of a split at a one-character separator do not contain the
    separator. *)
Lemma split_from_pieces (c : ascii) (s : string) : forall cur,
  ~ In c (list_ascii_of_string cur) ->
  Forall (fun piece => ~ In c (list_ascii_of_string piece))
         (split_from (String c EmptyString) 0 cur s).
Proof.
  induction s as [|a s IH]; intros cur Hc; cbn [split_from].
  - constructor; [|constructor]. intros H.
    apply (proj1 (chars_rev _ _)) in H. contradiction.
  - cbn [String.prefix]. destruct (ascii_dec c a) as [E|N].
    + destruct s; cbn [String.prefix String.length Nat.sub];
        (constructor;
         [ intros H; apply (proj1 (chars_rev _ _)) in H; contradiction
         | apply IH; intros [] ]).
    + apply IH. cbn [list_ascii_of_string]. intros [H|H]; [|contradiction].
      apply N. symmetry. exact H.
Qed.

Lemma first_piece_of_split (c : ascii) (s : string) :
  ~ In c (list_ascii_of_string
            (first_piece (split (String c EmptyString) s))).
Proof.
  unfold split, first_piece.
  pose proof (split_from_pieces c s EmptyString (fun H => H)) as F.
  destruct (split_from _ _ _ _) as [|piece pieces]; cbn [hd].
  - intros [].
  - inversion F; assumption.
Qed.

(** [c in s] is false of a string without the character [c]. *)
Lemma contains_char_false (c : ascii) (s : string) :
  ~ In c (list_ascii_of_string s) -> contains (String c EmptyString) s = false.
Proof.
  induction s as [|a s IH]; intros H; cbn [contains String.prefix]; [reflexivity|].
  cbn [list_ascii_of_string In] in H.
  destruct (ascii_dec c a) as [E|N].
  - exfalso. apply H. left. symmetry. exact E.
  - apply IH. intros Hin. apply H. right. exact Hin.
Qed.

End StringFacts.

(** X6.  Every reply that [process_intruder_response] returns is a single
    line: it contains no newline character, whatever text the generator
    produces. *)
Theorem reply_is_one_line (run : string -> LLM.generation) (m : LLM.Manager)
    (text : string) :
  PyStr.contains PyStr.newline
    (fst (fst (LLM.process_intruder_response run m text))) = false.
Proof.
  apply (reply_cases (fun r => PyStr.contains PyStr.newline r = false)).
  - reflexivity.
  - intros m' text'. pose proof (fallback_cases m' text') as H.
    cbn [In LLM.responses] in H.
    repeat (destruct H as [H|H]; [rewrite <- H; reflexivity|]).
    contradiction.
  - intros full_response response _ _. apply contains_char_false.
    intros H. apply chars_strip in H.
    exact (first_piece_of_split _ _ H).
Qed.

(* ================================================================== *)
(** * Further results: speech synthesis *)

(** X7.  [text_to_speech] returns [True] exactly when no library call
    raises, and it leaves [is_speaking] at [False] exactly when, moreover,
    it was called in blocking mode.  In the non-blocking mode the flag is
    still [True] when the call returns, and the cleanup thread does not
    clear it either. *)
Theorem speaking_flag_cleared_iff (env cleanup_env : TTS.call_env)
    (text : string) (blocking is_speaking : bool) :
  let result := TTS.text_to_speech env text blocking is_speaking in
  (fst (fst result) = true <-> TTS.fails env = None)
  /\ (snd (fst result) = false <-> TTS.fails env = None /\ blocking = true)
  /\ (blocking = false ->
      fst (TTS.cleanup cleanup_env (snd (fst result))) = true).
Proof.
  cbv zeta. unfold TTS.text_to_speech, TTS.cleanup.
  destruct (TTS.fails env) as [[st e]|]; cbn [option_map fst];
    [destruct st|]; destruct blocking; cbn;
    repeat split; intros; break_hyps; congruence.
Qed.

(** X8.  When a library call of [text_to_speech] raises, the calls before
    it, in the order of the source, are the only ones made: no later call
    follows, so that nothing is loaded or played after a failed synthesis,
    and the error line ends the events. *)
Theorem calls_stop_at_failure (st : tts_stage) (e : string) (polls : nat)
    (text : string) (blocking is_speaking : bool) :
  exists before after,
    TTS.stages = before ++ st :: after
    /\ snd (TTS.text_to_speech (TTS.mkCallEnv (Some (st, e)) polls)
              text blocking is_speaking)
       = [Print ("TTS module: Synthesizing speech for text: '" ++ text ++ "'");
          SetSpeaking true]
         ++ map Called before
         ++ [Raised st; Print ("TTS Error: " ++ e)].
Proof.
  destruct st.
  - exists [], [Synthesize; SaveAudio; LoadAudio; PlayAudio]. split; reflexivity.
  - exists [MakeTempFile], [SaveAudio; LoadAudio; PlayAudio]. split; reflexivity.
  - exists [MakeTempFile; Synthesize], [LoadAudio; PlayAudio]. split; reflexivity.
  - exists [MakeTempFile; Synthesize; SaveAudio], [PlayAudio]. split; reflexivity.
  - exists [MakeTempFile; Synthesize; SaveAudio; LoadAudio], []. split; reflexivity.
Qed.

(** X7 on a sample: a successful non-blocking call leaves the flag set. *)
Lemma speaking_flag_cleared_iff_witness :
  fst (TTS.cleanup (TTS.mkCallEnv None 3)
         (snd (fst (TTS.text_to_speech (TTS.mkCallEnv None 3) "hello" false false))))
  = true.
Proof.
  exact (proj2 (proj2 (speaking_flag_cleared_iff (TTS.mkCallEnv None 3)
                         (TTS.mkCallEnv None 3) "hello" false false)) eq_refl).
Defined.

(* ================================================================== *)
(** * Further results: the speech listener *)

Section ListenerFacts.

Import ASR.

Lemma listen_pass_appends (env : pass_env) (l l' : ASRListener)
    (evs : list event) :
  _listen_worker_pass env l = Ready (l', evs) ->
  listening l' = listening l
  /\ maxsize (text_queue l') = maxsize (text_queue l)
  /\ exists added,
       items (text_queue l') = items (text_queue l) ++ added
       /\ (List.length added <= 1)%nat
       /\ forall text, In text added -> In (recognized_line text) evs.
Proof.
  unfold _listen_worker_pass.
  assert (Same : forall out, Ready (l, out) = Ready (l', evs) ->
            listening l' = listening l
            /\ maxsize (text_queue l') = maxsize (text_queue l)
            /\ exists added,
                 items (text_queue l') = items (text_queue l) ++ added
                 /\ (List.length added <= 1)%nat
                 /\ forall text, In text added -> In (recognized_line text) evs).
  { intros out E. injection E as <- _. split; [reflexivity|].
    split; [reflexivity|]. exists []. rewrite app_nil_r.
    split; [reflexivity|]. split; [cbn; lia|]. intros ? []. }
  destruct (tts_speaking env) as [[|]|]; try (apply Same);
    (destruct (heard env) as [audio| | |]; try (apply Same);
     destruct (recognize env audio) as [text| | |]; try (apply Same);
     unfold put; destruct (full (text_queue l)); [discriminate|];
     intros E; injection E as <- <-; cbn [listening text_queue maxsize items];
     split; [reflexivity|]; split; [reflexivity|];
     exists [text]; split; [reflexivity|]; split; [cbn; lia|];
     intros t [<-|[]]; unfold recognized_line; do 4 right; left; reflexivity).
Qed.

(** X9.  Whatever happens during its passes, the listener's worker only
    adds to the end of the text queue: it never removes or reorders a text
    that waits there, adds at most one text per pass, prints each text it
    adds, and leaves the [listening] flag alone. *)
Theorem worker_only_appends (envs : list pass_env) : forall l l' evs,
  _listen_worker envs l = Ready (l', evs) ->
  listening l' = listening l
  /\ maxsize (text_queue l') = maxsize (text_queue l)
  /\ exists added,
       items (text_queue l') = items (text_queue l) ++ added
       /\ (List.length added <= List.length envs)%nat
       /\ forall text, In text added -> In (recognized_line text) evs.
Proof.
  induction envs as [|env envs IH]; intros l l' evs; cbn [_listen_worker].
  - intros E. injection E as <- <-. split; [reflexivity|]. split; [reflexivity|].
    exists []. rewrite app_nil_r. split; [reflexivity|]. split; [cbn; lia|].
    intros ? [].
  - destruct (listening l) eqn:L; cbn [negb].
    + destruct (_listen_worker_pass env l) as [[l1 evs1]|] eqn:P; [|discriminate].
      destruct (_listen_worker envs l1) as [[l2 evs2]|] eqn:W; [|discriminate].
      intros E. injection E as <- <-.
      destruct (listen_pass_appends env l l1 evs1 P)
        as (H1 & M1 & added1 & I1 & N1 & P1).
      destruct (IH l1 l2 evs2 W) as (H2 & M2 & added2 & I2 & N2 & P2).
      split; [congruence|]. split; [congruence|].
      exists (added1 ++ added2). split; [rewrite I2, I1, app_assoc; reflexivity|].
      split; [rewrite length_app; cbn [List.length]; lia|].
      intros text H. apply in_or_app. apply in_app_or in H.
      destruct H as [H|H]; [left; exact (P1 text H)|right; exact (P2 text H)].
    + intros E. injection E as <- <-. split; [exact L|]. split; [reflexivity|].
      exists []. rewrite app_nil_r. split; [reflexivity|]. split; [cbn; lia|].
      intros ? [].
Qed.

Lemma drain_all (texts : list string) : forall l,
  items (text_queue l) = texts ->
  drain (List.length texts) l
  = (map Some texts,
     mkListener (listening l) (mkQueue (maxsize (text_queue l)) [])).
Proof.
  induction texts as [|text texts IH]; intros [li [mx its]] H;
    cbn [text_queue items listening maxsize] in *; subst its.
  - reflexivity.
  - cbn [List.length drain]. unfold get_text, get_nowait.
    cbn [text_queue items listening maxsize].
    rewrite (IH (mkListener li (mkQueue mx texts)) eq_refl). reflexivity.
Qed.

(** X10.  Texts go through the listener in the order in which they were
    recognized: after passes that each hear and recognize a text, the text
    queue holds the texts that waited there followed by the new ones, and
    that many calls of [get_text] return them in this order and leave the
    queue empty, so that the next call returns [None]. *)
Theorem recognized_texts_are_delivered_in_order
    (envs : list pass_env) (texts : list string) : forall l,
  Forall2 (fun env text =>
             tts_speaking env <> Some true
             /\ exists audio, heard env = Heard audio
                              /\ recognize env audio = Recognized text)
          envs texts ->
  listening l = true ->
  maxsize (text_queue l) = 0%Z ->
  exists l' evs,
    _listen_worker envs l = Ready (l', evs)
    /\ items (text_queue l') = items (text_queue l) ++ texts
    /\ drain (List.length (items (text_queue l) ++ texts)) l'
       = (map Some (items (text_queue l) ++ texts),
          mkListener true (mkQueue 0 []))
    /\ fst (get_text (mkListener true (mkQueue 0 []))) = None.
Proof.
  intros l F. revert l.
  assert (W : forall l, listening l = true -> maxsize (text_queue l) = 0%Z ->
            exists l' evs,
              _listen_worker envs l = Ready (l', evs)
              /\ listening l' = true
              /\ maxsize (text_queue l') = 0%Z
              /\ items (text_queue l') = items (text_queue l) ++ texts).
  { induction F as [|env text envs texts (Hs & audio & Hh & Hr) _ IH];
      intros l L M.
    - exists l, []. rewrite app_nil_r. auto.
    - cbn [_listen_worker]. rewrite L. cbn [negb].
      unfold _listen_worker_pass. rewrite Hh, Hr.
      rewrite put_when_not_full by (apply unbounded_never_full; exact M).
      destruct (IH (mkListener (listening l)
                      (mkQueue (maxsize (text_queue l))
                         (items (text_queue l) ++ [text]))) L M)
        as (l' & evs & E & L' & M' & I').
      cbn [text_queue items] in I'. rewrite <- app_assoc in I'.
      destruct (tts_speaking env) as [[|]|]; [congruence| |];
        rewrite E; do 2 eexists; (split; [reflexivity|]); auto. }
  intros l L M. destruct (W l L M) as (l' & evs & E & L' & M' & I').
  exists l', evs. split; [exact E|]. split; [exact I'|]. split; [|reflexivity].
  rewrite <- I'. rewrite (drain_all _ l' eq_refl), L', M'. reflexivity.
Qed.

(** X11.  [recognize_speech_once] returns the text exactly when a clip is
    heard and recognized; it returns [None] exactly on a listening timeout,
    on audio that is not understood and on a request error; every other
    exception of listening or recognizing, and one of opening the
    microphone, leaves the function. *)
Theorem recognize_speech_once_result (h : listen_outcome)
    (recognize : AudioData -> recognize_outcome) :
  let result := fst (recognize_speech_once h recognize) in
  (forall text,
      result = Returns (Some text)
      <-> exists audio, h = Heard audio /\ recognize audio = Recognized text)
  /\ (result = Returns None
      <-> h = WaitTimeout
          \/ exists audio,
               h = Heard audio
               /\ (recognize audio = UnknownValue
                   \/ exists e, recognize audio = RequestError e))
  /\ (forall e,
        result = Raises e
        <-> h = MicrophoneError e \/ h = ListenError e
            \/ exists audio, h = Heard audio /\ recognize audio = RecognizeError e).
Proof.
  cbv zeta. unfold recognize_speech_once.
  destruct h as [audio| |e0|e0]; [destruct (recognize audio) eqn:R| | |];
    cbn [fst]; repeat split; intros; break_hyps;
    try congruence;
    try match goal with
        | H : Returns (Some _) = Returns (Some _) |- _ => injection H as <-
        | H : Raises _ = Raises _ |- _ => injection H as <-
        end;
    eauto 8.
Qed.

(** X12.  Starting a listener that listens and stopping one that does not
    do nothing and print nothing; neither starting nor stopping touches the
    text queue, so a text recognized before a stop can still be read after
    it. *)
Theorem start_and_stop_are_guarded (l : ASRListener) :
  start_listening (fst (start_listening l)) = (fst (start_listening l), [])
  /\ stop_listening (fst (stop_listening l)) = (fst (stop_listening l), [])
  /\ listening (fst (start_listening l)) = true
  /\ listening (fst (stop_listening l)) = false
  /\ text_queue (fst (start_listening l)) = text_queue l
  /\ text_queue (fst (stop_listening l)) = text_queue l
  /\ fst (get_text (fst (stop_listening l))) = fst (get_text l).
Proof.
  unfold start_listening, stop_listening, get_text, get_nowait.
  destruct l as [[|] q]; cbn; repeat split; destruct (items q); reflexivity.
Qed.

End ListenerFacts.

(* ================================================================== *)
(** * Further results: the known faces *)

Section DictKeys.

Import FaceRecognition.
Context {V : Type}.

Lemma keys_dict_set_fresh (k : string) (v : V) (d : dict V) :
  ~ In k (keys d) -> keys (dict_set k v d) = keys d ++ [k].
Proof.
  induction d as [|[k' v'] d IH]; cbn; [reflexivity|]. intros N.
  destruct (String.eqb k k') eqn:E.
  - apply String.eqb_eq in E. subst k'. exfalso. apply N. left. reflexivity.
  - cbn. f_equal. apply IH. intros H. apply N. right. exact H.
Qed.

Lemma keys_dict_set_present (k : string) (v : V) (d : dict V) :
  In k (keys d) -> keys (dict_set k v d) = keys d.
Proof.
  induction d as [|[k' v'] d IH]; cbn; [intros []|]. intros H.
  destruct (String.eqb k k') eqn:E.
  - apply String.eqb_eq in E. subst k'. reflexivity.
  - cbn. f_equal. apply IH. destruct H as [H|H]; [|exact H].
    apply String.eqb_neq in E. symmetry in H. contradiction.
Qed.

Lemma NoDup_keys_dict_set (k : string) (v : V) (d : dict V) :
  NoDup (keys d) -> NoDup (keys (dict_set k v d)).
Proof.
  intros N. destruct (in_dec string_dec k (keys d)) as [H|H].
  - rewrite keys_dict_set_present by exact H. exact N.
  - rewrite keys_dict_set_fresh by exact H.
    apply NoDup_app; [exact N|constructor; [intros []|constructor]|].
    intros x Hx [<-|[]]. contradiction.
Qed.

Lemma get_Some_In (k : string) (v : V) (d : dict V) :
  get k d = Some v -> In (k, v) d.
Proof.
  induction d as [|[k' v'] d IH]; cbn; [discriminate|].
  destruct (String.eqb k k') eqn:E.
  - apply String.eqb_eq in E. subst k'. intros H. injection H as ->.
    left. reflexivity.
  - intros H. right. exact (IH H).
Qed.

End DictKeys.

Section KnownFaces.

Import FaceRecognition.
Variables Image Encoding : Type.
Variable listdir : string -> list string + string.
Variable isdir : string -> bool.
Variable load_image_file : string -> load_result Image.
Variable face_encodings : Image -> encode_result Encoding.

Local Abbreviation load_persons :=
  (load_persons Image Encoding listdir isdir load_image_file face_encodings).
Local Abbreviation load_known_faces :=
  (load_known_faces Image Encoding listdir isdir load_image_file face_encodings).

Lemma load_persons_returns_iff (dataset_path : string)
    (person_names : list string) : forall known_faces out,
  (exists known_faces' out',
      load_persons dataset_path person_names known_faces out
      = Return known_faces' out')
  <-> forall p, In p person_names ->
                isdir (path_join dataset_path p) = true ->
                exists image_names,
                  listdir (path_join dataset_path p) = inl image_names.
Proof.
  induction person_names as [|name names IH]; intros known_faces out;
    cbn [FaceRecognition.load_persons].
  - split; [intros _ ? []|eauto].
  - destruct (isdir (path_join dataset_path name)) eqn:D.
    + destruct (listdir (path_join dataset_path name)) as [image_names|e] eqn:L.
      * destruct (FaceRecognition.load_images _ _ _ _ _ _ _) as [encodings out1].
        rewrite IH. split.
        -- intros H p [<-|Hin] Hd; [eauto|exact (H p Hin Hd)].
        -- intros H p Hin Hd. apply H; [right; exact Hin|exact Hd].
      * split.
        -- intros (? & ? & H). discriminate.
        -- intros H. destruct (H name (or_introl eq_refl) D) as [? H'].
           congruence.
    + rewrite IH. split.
      * intros H p [<-|Hin] Hd; [congruence|exact (H p Hin Hd)].
      * intros H p Hin Hd. apply H; [right; exact Hin|exact Hd].
Qed.

Lemma load_persons_NoDup (dataset_path : string) (person_names : list string) :
  forall known_faces out known_faces' out',
    load_persons dataset_path person_names known_faces out
    = Return known_faces' out' ->
    NoDup (keys known_faces) -> NoDup (keys known_faces').
Proof.
  induction person_names as [|name names IH]; intros kf out kf' out';
    cbn [FaceRecognition.load_persons].
  - intros E. injection E as <- _. auto.
  - destruct (isdir (path_join dataset_path name)); [|apply IH].
    destruct (listdir (path_join dataset_path name)); [|discriminate].
    destruct (FaceRecognition.load_images _ _ _ _ _ _ _) as [encodings out1].
    intros E N. apply (IH _ _ _ _ E).
    destruct encodings; [exact N|]. apply NoDup_keys_dict_set. exact N.
Qed.

(** X13.  [load_known_faces] returns a map exactly when the data set
    directory and every person directory in it can be listed; when a
    listing raises, the exception leaves the function and no map is
    returned, whatever was loaded before. *)
Theorem load_known_faces_returns_iff (dataset_path : string) :
  (exists known_faces out,
      load_known_faces dataset_path = Return known_faces out)
  <-> exists person_names,
        listdir dataset_path = inl person_names
        /\ forall p, In p person_names ->
                     isdir (path_join dataset_path p) = true ->
                     exists image_names,
                       listdir (path_join dataset_path p) = inl image_names.
Proof.
  unfold FaceRecognition.load_known_faces.
  destruct (listdir dataset_path) as [person_names|e].
  - rewrite load_persons_returns_iff. split.
    + intros H. exists person_names. split; [reflexivity|exact H].
    + intros (names & E & H). injection E as <-. exact H.
  - split.
    + intros (? & ? & H). discriminate.
    + intros (? & H & _). discriminate.
Qed.

End KnownFaces.

Section KnownFacesListed.

Import FaceRecognition.
Variables Image Encoding : Type.
Variable ls : string -> list string.
Variable isdir : string -> bool.
Variable load_image_file : string -> load_result Image.
Variable face_encodings : Image -> encode_result Encoding.
Variable compare_faces : list Encoding -> Encoding -> list bool.

Local Abbreviation listdir :=
  (fun path : string => @inl (list string) string (ls path)).
Local Abbreviation first_encoding :=
  (first_encoding Image Encoding load_image_file face_encodings).
Local Abbreviation encodings_of :=
  (encodings_of Image Encoding load_image_file face_encodings).
Local Abbreviation load_images :=
  (load_images Image Encoding load_image_file face_encodings).
Local Abbreviation load_persons :=
  (load_persons Image Encoding listdir isdir load_image_file face_encodings).
Local Abbreviation load_known_faces :=
  (load_known_faces Image Encoding listdir isdir load_image_file face_encodings).
Local Abbreviation person_encodings dataset_path p :=
  (encodings_of (path_join dataset_path p) (ls (path_join dataset_path p))).
Local Abbreviation usable dataset_path :=
  (fun p : string =>
     isdir (path_join dataset_path p)
     && match person_encodings dataset_path p with
        | [] => false
        | _ :: _ => true
        end).
Local Abbreviation any_match := (any_match Encoding compare_faces).
Local Abbreviation recognize_face :=
  (recognize_face Image Encoding load_image_file face_encodings compare_faces).

(** X14.  The map that [load_known_faces] returns is well formed: no name
    occurs twice among its keys, every key is an entry of the data set
    directory that is a directory, and no person is entered with an empty
    list of encodings. *)
Theorem known_faces_are_well_formed (dataset_path : string) :
  exists known_faces out,
    load_known_faces dataset_path = Return known_faces out
    /\ NoDup (keys known_faces)
    /\ forall p encodings,
         get p known_faces = Some encodings ->
         encodings <> []
         /\ In p (ls dataset_path)
         /\ isdir (path_join dataset_path p) = true.
Proof.
  unfold FaceRecognition.load_known_faces.
  destruct (load_persons_spec Image Encoding ls isdir load_image_file
              face_encodings dataset_path (ls dataset_path) [] [])
    as (kf & extra & E & Hget & _).
  exists kf, extra. split; [exact E|]. split.
  - apply (load_persons_NoDup Image Encoding listdir isdir load_image_file
             face_encodings dataset_path (ls dataset_path) [] [] kf _ E).
    constructor.
  - intros p encodings H. rewrite Hget in H.
    destruct (existsb (String.eqb p) (ls dataset_path)) eqn:Ex;
      [|discriminate].
    destruct (isdir (path_join dataset_path p)); [|discriminate].
    destruct (person_encodings dataset_path p) as [|e es] eqn:P;
      [discriminate|].
    cbn in H. injection H as <-. split; [discriminate|]. split; [|reflexivity].
    apply existsb_exists in Ex. destruct Ex as (q & Hin & Hq).
    apply String.eqb_eq in Hq. subst q. exact Hin.
Qed.

Lemma load_persons_keys (dataset_path : string) (person_names : list string) :
  forall known_faces out,
    NoDup person_names ->
    (forall p, In p person_names -> ~ In p (keys known_faces)) ->
    exists known_faces' out',
      load_persons dataset_path person_names known_faces out
      = Return known_faces' out'
      /\ keys known_faces'
         = keys known_faces ++ filter (usable dataset_path) person_names.
Proof.
  induction person_names as [|name names IH]; intros kf out N F;
    cbn [FaceRecognition.load_persons filter].
  - exists kf, out. rewrite app_nil_r. split; reflexivity.
  - inversion N as [|? ? Hn N']; subst.
    destruct (isdir (path_join dataset_path name)) eqn:D; cbn [andb].
    + destruct (load_images_spec Image Encoding load_image_file face_encodings
                  (path_join dataset_path name) (ls (path_join dataset_path name)) [])
        as [H1 _].
      destruct (load_images (path_join dataset_path name)
                  (ls (path_join dataset_path name)) []) as [encodings out1].
      cbn [fst app] in H1. subst encodings.
      destruct (person_encodings dataset_path name) as [|e es] eqn:P.
      * apply IH; [exact N'|]. intros p Hp. apply F. right. exact Hp.
      * destruct (IH (dict_set name (e :: es) kf) (out ++ out1) N')
          as (kf' & out' & E & K).
        { intros p Hp. rewrite keys_dict_set_fresh by (apply F; left; reflexivity).
          intros H. apply in_app_or in H. destruct H as [H|[<-|[]]].
          - exact (F p (or_intror Hp) H).
          - contradiction. }
        exists kf', out'. split; [exact E|]. rewrite K.
        rewrite keys_dict_set_fresh by (apply F; left; reflexivity).
        rewrite <- app_assoc. reflexivity.
    + apply IH; [exact N'|]. intros p Hp. apply F. right. exact Hp.
Qed.

(** X15.  When the entries of the data set directory are distinct, the keys
    of the returned map are, in the order of the listing, the entries that
    are directories with at least one image that could be encoded.  (This is
    the order in which faces are later compared with the persons.) *)
Theorem known_faces_keep_listing_order (dataset_path : string) :
  NoDup (ls dataset_path) ->
  exists known_faces out,
    load_known_faces dataset_path = Return known_faces out
    /\ keys known_faces = filter (usable dataset_path) (ls dataset_path).
Proof.
  intros N. unfold FaceRecognition.load_known_faces.
  destruct (load_persons_keys dataset_path (ls dataset_path) [] [] N)
    as (kf & out & E & K); [intros ? _ []|].
  exists kf, out. split; [exact E|exact K].
Qed.

(** X16.  Enrolment and recognition fit together.  Provided the face
    library finds an encoding to match a list that contains it, an image of
    the data set that contributes an encoding to its person is never
    rejected by [recognize_face] against the loaded map: the result is the
    name of a person of the map one of whose encodings matches, not [None]
    and not an exception. *)
Theorem enrolled_image_is_recognized (dataset_path p image_name : string)
    (e : Encoding) :
  (forall encodings x, In x encodings -> any_match encodings x = true) ->
  In p (ls dataset_path) ->
  isdir (path_join dataset_path p) = true ->
  In image_name (ls (path_join dataset_path p)) ->
  first_encoding (path_join (path_join dataset_path p) image_name) = Some e ->
  exists known_faces out name encodings,
    load_known_faces dataset_path = Return known_faces out
    /\ recognize_face (path_join (path_join dataset_path p) image_name)
         known_faces
       = Return (Some name) []
    /\ In (name, encodings) known_faces
    /\ any_match encodings e = true.
Proof.
  intros Hrefl Hp Hd Hi He. unfold FaceRecognition.load_known_faces.
  destruct (load_persons_spec Image Encoding ls isdir load_image_file
              face_encodings dataset_path (ls dataset_path) [] [])
    as (kf & extra & E & Hget & _).
  assert (Hin : In e (person_encodings dataset_path p)).
  { unfold FaceRecognition.encodings_of. apply in_flat_map.
    exists image_name. split; [exact Hi|]. rewrite He. left. reflexivity. }
  assert (Hk : get p kf = Some (person_encodings dataset_path p)).
  { rewrite Hget, Hd.
    replace (existsb (String.eqb p) (ls dataset_path)) with true.
    - destruct (person_encodings dataset_path p); [contradiction|reflexivity].
    - symmetry. apply existsb_exists. exists p. split; [exact Hp|].
      apply String.eqb_refl. }
  destruct (FaceRecognition.first_match Encoding compare_faces kf e)
    as [name|] eqn:M.
  - pose proof M as M'. apply first_match_Some in M'.
    destruct M' as (before & encodings & after & K & Hm & _).
    exists kf, extra, name, encodings. split; [exact E|]. split.
    + unfold FaceRecognition.recognize_face.
      unfold FaceRecognition.first_encoding in He.
      destruct (load_image_file _) as [image| |]; try discriminate.
      destruct (face_encodings image) as [[|e' more]|]; try discriminate.
      injection He as ->. rewrite M. reflexivity.
    + split; [|exact Hm]. rewrite K. apply in_or_app. right. left. reflexivity.
  - exfalso. apply first_match_None in M. rewrite Forall_forall in M.
    specialize (M _ (get_Some_In _ _ _ Hk)). cbn [snd] in M.
    rewrite (Hrefl _ _ Hin) in M. discriminate.
Qed.

End KnownFacesListed.

(** ** The worker's naming of faces *)

Section WorkerNames.

Import Main.
Variables Frame Encoding : Type.
Variable face_locations : Frame -> list box.
Variable face_encodings : Frame -> list box -> list Encoding.
Variable compare_faces : list Encoding -> Encoding -> list bool.

Lemma name_of_first_match (known_faces : known_faces_t Encoding)
    (face_encoding : Encoding) :
  name_of Encoding compare_faces known_faces face_encoding
  = match FaceRecognition.first_match Encoding compare_faces known_faces
            face_encoding with
    | Some person_name => person_name
    | None => "Unknown"%string
    end.
Proof.
  assert (H : forall kf,
             match_name Encoding compare_faces kf face_encoding
             = match FaceRecognition.first_match Encoding compare_faces kf
                       face_encoding with
               | Some person_name => person_name
               | None => "Unknown"%string
               end).
  { induction kf as [|[p encs] kf IH]; cbn; [reflexivity|].
    unfold FaceRecognition.any_match.
    destruct (existsb _ _); [reflexivity|exact IH]. }
  unfold name_of. destruct known_faces; [reflexivity|apply H].
Qed.

(** X17.  The live worker and [recognize_face] name a face alike: for an
    image that loads and whose first encoding is [e], [recognize_face]
    returns the name the worker gives to a face with encoding [e] against
    the same map. *)
Theorem worker_names_as_recognize_face (Image : Type)
    (load_image_file : string -> FaceRecognition.load_result Image)
    (image_encodings : Image -> FaceRecognition.encode_result Encoding)
    (unknown_image_path : string) (known_faces : known_faces_t Encoding)
    (image : Image) (e : Encoding) (more : list Encoding) :
  load_image_file unknown_image_path = FaceRecognition.Loaded image ->
  image_encodings image = FaceRecognition.Encodings (e :: more) ->
  FaceRecognition.recognize_face Image Encoding load_image_file image_encodings
    compare_faces unknown_image_path known_faces
  = FaceRecognition.Return
      (Some (name_of Encoding compare_faces known_faces e)) [].
Proof.
  intros L F. unfold FaceRecognition.recognize_face.
  rewrite L, F, name_of_first_match.
  destruct (FaceRecognition.first_match _ _ _ _); reflexivity.
Qed.

(** X18.  The worker reports one entry for each face that has both a
    location and an encoding; every reported name is "Unknown" or a key of
    the map of known faces, and every reported box is a located box with its
    four coordinates multiplied by 4. *)
Theorem recognized_faces_are_named_and_scaled
    (known_faces : known_faces_t Encoding) (frame : Frame) :
  let reported :=
    recognize_frame Frame Encoding face_locations face_encodings compare_faces
      known_faces frame in
  List.length reported
  = Nat.min (List.length (face_locations frame))
      (List.length (face_encodings frame (face_locations frame)))
  /\ Forall (fun f : face =>
               (snd f = "Unknown"%string
                \/ In (snd f) (FaceRecognition.keys known_faces))
               /\ exists top right_ bottom left_,
                    In (top, right_, bottom, left_) (face_locations frame)
                    /\ fst f = (top * 4, right_ * 4, bottom * 4, left_ * 4)%Z)
            reported.
Proof.
  cbv zeta. unfold recognize_frame. split.
  - rewrite length_map, length_combine. reflexivity.
  - apply Forall_forall. intros f Hf. apply in_map_iff in Hf.
    destruct Hf as ([[[[top right_] bottom] left_] enc] & <- & Hin).
    cbn [fst snd]. split.
    + rewrite name_of_first_match.
      destruct (FaceRecognition.first_match _ _ _ _) as [p|] eqn:M;
        [|left; reflexivity].
      right. apply first_match_Some in M.
      destruct M as (before & encs & after & -> & _).
      unfold FaceRecognition.keys. rewrite map_app. apply in_or_app.
      right. left. reflexivity.
    + exists top, right_, bottom, left_. split; [|reflexivity].
      exact (in_combine_l _ _ _ _ Hin).
Qed.

End WorkerNames.

(* ================================================================== *)
(** * Further results: the main loop *)

Section LoopInvariants.

Import Main.
Variable Frame : Type.
Implicit Types s : loop_state Frame.
Implicit Types env : pass_env Frame.

Lemma one_slot_not_full {A : Type} (q : Queue A) :
  maxsize q = 1%Z -> full q = false -> items q = [].
Proof.
  unfold full, qsize. intros -> H. cbn [Z.ltb Z.compare andb] in H.
  apply Z.leb_gt in H. destruct (items q); [reflexivity|].
  cbn [List.length] in H. lia.
Qed.

(** X19.  The two queues between the main loop and the recognition worker
    never hold more than one item: at most one frame waits for the worker
    and at most one result waits for the loop. *)
Theorem queues_hold_at_most_one s :
  reachable s ->
  (List.length (items (frame_queue s)) <= 1)%nat
  /\ (List.length (items (result_queue s)) <= 1)%nat.
Proof.
  induction 1 as [available load_error | s env s' out R IH Hp | s s' R IH Hi].
  - split; cbn; lia.
  - destruct IH as (Hf & Hr).
    destruct (reachable_capacities Frame s R) as (Mf & Mr & _).
    destruct (capture env) as [frame|] eqn:Hc.
    2:{ unfold loop_pass, pass_prefix in Hp. rewrite Hc in Hp. discriminate. }
    destruct (loop_pass_shape Frame env s frame s' out Hc (or_introl Hp))
      as (s2 & m & mode & t & g & last & l & Ha & -> & _).
    destruct (acquire_spec Frame frame s s2 Ha)
      as (_ & _ & _ & _ & _ & Hq & Hrq & _).
    cbn [frame_queue result_queue set_last_unknown_alert_time
         set_conversation set_guard_mode set_asr_listener].
    rewrite Hq, Hrq. split.
    + destruct ((frame_count s + 1) mod 3 =? 0)%Z; cbn [andb]; [|exact Hf].
      destruct (full (frame_queue s)) eqn:F; cbn [negb]; [exact Hf|].
      cbn [items]. rewrite (one_slot_not_full _ Mf F). cbn. lia.
    + destruct (items (result_queue s)) as [|r rest] eqn:E.
      * rewrite E. cbn. lia.
      * cbn [items List.length] in *. lia.
  - destruct IH as (Hf & Hr).
    destruct (reachable_capacities Frame s R) as (Mf & Mr & _).
    destruct Hi as [s x q Hg | s r q Hput | s text q Hput];
      cbn [frame_queue result_queue set_frame_queue set_results set_asr_listener].
    + unfold get in Hg. destruct (items (frame_queue s)); [discriminate|].
      injection Hg as _ <-. cbn [items List.length] in *. split; lia.
    + unfold put in Hput. destruct (full (result_queue s)) eqn:F; [discriminate|].
      injection Hput as <-. cbn [items].
      rewrite (one_slot_not_full _ Mr F). split; [exact Hf|cbn; lia].
    + split; assumption.
Qed.

Lemma loop_pass_counts env s s' out :
  loop_pass env s = Continue s' out ->
  frame_count s' = (frame_count s + 1)%Z.
Proof.
  intros Hp. destruct (capture env) as [frame|] eqn:Hc.
  2:{ unfold loop_pass, pass_prefix in Hp. rewrite Hc in Hp. discriminate. }
  destruct (loop_pass_shape Frame env s frame s' out Hc (or_introl Hp))
    as (s2 & m & mode & t & g & last & l & Ha & -> & _).
  destruct (acquire_spec Frame frame s s2 Ha) as (Hn & _).
  exact Hn.
Qed.

(** X20.  [frame_count] counts the passes: a run of passes none of which
    breaks advances it by the number of passes, one per captured frame. *)
Theorem frame_count_counts_passes (envs : list (pass_env Frame)) :
  forall s s' out,
    run_loop envs s = Continue s' out ->
    frame_count s' = (frame_count s + Z.of_nat (List.length envs))%Z
    /\ Forall (fun env => capture env <> None) envs.
Proof.
  induction envs as [|env envs IH]; intros s s' out; cbn [run_loop].
  - intros E. injection E as <- _. split; [cbn; lia|constructor].
  - destruct (loop_pass env s) as [s1 out1| | |] eqn:P; try discriminate.
    destruct (run_loop envs s1) as [s2 out2| | |] eqn:W; try discriminate.
    intros E. injection E as <- _.
    destruct (IH s1 s2 out2 W) as [Hn Hc].
    rewrite Hn, (loop_pass_counts env s s1 out1 P). split.
    + cbn [List.length]. lia.
    + constructor; [|exact Hc]. intros N.
      unfold loop_pass, pass_prefix in P. rewrite N in P. discriminate.
Qed.

Lemma fold_on_face_idle (now : Q) (faces : list face) : forall s out,
  (forall f, In f faces ->
             String.eqb (snd f) "Unknown"
             && Qgtb (now - last_unknown_alert_time s) 10 = false) ->
  fold_left (on_face now) faces (s, out) = (s, out).
Proof.
  induction faces as [|f faces IH]; intros s out H; [reflexivity|].
  cbn [fold_left]. unfold on_face at 2.
  rewrite (H f (or_introl eq_refl)). apply IH.
  intros f' Hf. apply H. right. exact Hf.
Qed.

(** X21.  The guard check does nothing at all, it prints nothing, starts no
    conversation and leaves the state as it is, unless guard mode is on, a
    face named "Unknown" is among the results and more than 10 seconds have
    passed since the last alert. *)
Theorem guard_check_is_idle_unless_due (now : Q) s :
  guard_check now s = (s, [])
  \/ (guard_mode s = true
      /\ In "Unknown"%string (map snd (recognized_faces s))
      /\ (10 < now - last_unknown_alert_time s)%Q).
Proof.
  unfold guard_check. destruct (guard_mode s); [|left; reflexivity].
  destruct (Qgtb (now - last_unknown_alert_time s) 10) eqn:G.
  - destruct (in_dec string_dec "Unknown"%string (map snd (recognized_faces s)))
      as [Hin|Hn].
    + right. split; [reflexivity|]. split; [exact Hin|].
      unfold Qgtb in G. apply negb_true_iff in G.
      apply Qnot_le_lt. intros L. apply Qle_bool_iff in L. congruence.
    + left. apply fold_on_face_idle. intros f Hf.
      destruct (String.eqb (snd f) "Unknown") eqn:E; [|reflexivity].
      apply String.eqb_eq in E. exfalso. apply Hn. rewrite <- E.
      apply in_map. exact Hf.
  - left. apply fold_on_face_idle. intros f _. rewrite G. apply andb_false_r.
Qed.

Lemma speech_input_idle (run : string -> LLM.generation) (now : Q) s :
  items (ASR.text_queue (asr_listener s)) = [] ->
  speech_input run now s = Continue s [].
Proof.
  intros H. unfold speech_input, ASR.has_text.
  replace (empty (ASR.text_queue (asr_listener s))) with true
    by (symmetry; apply empty_items; exact H).
  reflexivity.
Qed.

(** X22.  Guard mode is switched by voice only: a pass that finds no
    recognized text waiting leaves [guard_mode] and the listener as they
    were, whatever the camera, the worker and the clock do. *)
Theorem guard_mode_needs_a_command env s s' out :
  loop_pass env s = Continue s' out \/ loop_pass env s = Break s' out ->
  items (ASR.text_queue (asr_listener s)) = [] ->
  guard_mode s' = guard_mode s /\ asr_listener s' = asr_listener s.
Proof.
  intros H T. unfold loop_pass, pass_prefix in H.
  destruct (capture env) as [frame|].
  2:{ destruct H as [H|H]; [discriminate|]. injection H as <- _.
      split; reflexivity. }
  destruct (acquire frame s) as [s2|] eqn:Ha; [|destruct H; discriminate].
  destruct (acquire_spec Frame frame s s2 Ha) as (_ & Hl & Hg & _).
  destruct (guard_check_shape Frame (clock_guard env) s2)
    as (m3 & mode3 & t3 & last3 & E3).
  destruct (guard_check (clock_guard env) s2) as [s3 out3]. cbn [fst] in E3.
  assert (G3 : guard_mode s3 = guard_mode s) by (subst s3; exact Hg).
  assert (L3 : asr_listener s3 = asr_listener s) by (subst s3; exact Hl).
  destruct (display (key env) s3) as [[|] out4].
  - destruct H as [H|H]; [discriminate|]. injection H as <- _. auto.
  - rewrite speech_input_idle in H by (rewrite L3; exact T).
    destruct (check_timeout_shape Frame (clock_check env) s3) as (m6 & mode6 & E6).
    destruct (check_timeout (clock_check env) s3) as [s6 out6]. cbn [fst] in E6.
    destruct H as [H|H]; [|discriminate]. injection H as <- _.
    rewrite E6. cbn [guard_mode asr_listener set_conversation]. auto.
Qed.

End LoopInvariants.

Section GuardedConversation.

Import Main.
Variable Frame : Type.
Implicit Types s : loop_state Frame.
Implicit Types env : pass_env Frame.

Lemma guard_check_guarded (now : Q) s :
  guarded s -> guarded (fst (guard_check now s)).
Proof.
  intros G. destruct (guard_mode s) eqn:M.
  - destruct (guard_check_shape Frame now s) as (m & mode & t & last & E).
    rewrite E. intros _. exact M.
  - unfold guard_check. rewrite M. exact G.
Qed.

Lemma voice_command_guarded (text : string) s :
  guarded s -> guarded (snd (fst (voice_command text s))).
Proof.
  intros G. unfold voice_command.
  destruct (_ && _); [intros _; reflexivity|].
  destruct (_ && _).
  - destruct (LLM.is_conversation_active _); cbn; intros H; discriminate.
  - destruct (PyStr.any_in _ _); exact G.
Qed.

Lemma speech_input_guarded (run : string -> LLM.generation) (now : Q)
    s s' out :
  guarded s -> speech_input run now s = Continue s' out -> guarded s'.
Proof.
  intros G. unfold speech_input.
  destruct (ASR.has_text (asr_listener s)).
  2:{ intros E. injection E as <- _. exact G. }
  destruct (ASR.get_text (asr_listener s)) as [[text|] l]; [|discriminate].
  change (conversation_mode (set_asr_listener l s)) with (conversation_mode s).
  destruct (conversation_mode s) eqn:M.
  - unfold intruder_reply.
    destruct (LLM.process_intruder_response _ _ _) as [[reply m] evs].
    intros E. injection E as <- _. intros _. exact (G M).
  - pose proof (voice_command_guarded text (set_asr_listener l s)) as V.
    destruct (voice_command text (set_asr_listener l s)) as [[quit s1] evs].
    destruct quit; [discriminate|]. intros E. injection E as <- _.
    apply V. intros H. cbn in H. congruence.
Qed.

Lemma check_timeout_guarded (now : Q) s :
  guarded s -> guarded (fst (check_timeout now s)).
Proof.
  intros G. unfold check_timeout.
  destruct (conversation_mode s && Qgtb now (conversation_timeout s)); [|exact G].
  cbn [conversation_manager set_conversation].
  destruct (LLM.is_conversation_active (conversation_manager s));
    cbn; intros H; discriminate.
Qed.

Lemma loop_pass_guarded env s s' out :
  guarded s -> loop_pass env s = Continue s' out -> guarded s'.
Proof.
  intros G. unfold loop_pass, pass_prefix.
  destruct (capture env) as [frame|]; [|discriminate].
  destruct (acquire frame s) as [s2|] eqn:Ha; [|discriminate].
  destruct (acquire_spec Frame frame s s2 Ha) as (_ & _ & Hg & Hm & _).
  assert (G2 : guarded s2) by (unfold guarded; rewrite Hg, Hm; exact G).
  pose proof (guard_check_guarded (clock_guard env) s2 G2) as G3.
  destruct (guard_check (clock_guard env) s2) as [s3 out3]. cbn [fst] in G3.
  destruct (display (key env) s3) as [[|] out4]; [discriminate|].
  destruct (speech_input (generator_run env) (clock_asr env) s3)
    as [s5 out5| | |] eqn:Hs; try discriminate.
  pose proof (check_timeout_guarded (clock_check env) s5
                (speech_input_guarded _ _ s3 s5 out5 G3 Hs)) as G6.
  destruct (check_timeout (clock_check env) s5) as [s6 out6].
  intros E. injection E as <- _. exact G6.
Qed.

(** X23.  A conversation with an intruder goes on only in guard mode, and
    only while the manager's conversation is active: in every state the
    loop can reach, [conversation_mode] implies both. *)
Theorem conversation_only_in_guard_mode s :
  reachable s ->
  conversation_mode s = true ->
  guard_mode s = true
  /\ LLM.is_conversation_active (conversation_manager s) = true.
Proof.
  intros R M. split; [|exact (reachable_consistent Frame s R M)].
  revert M. change (guarded s).
  induction R as [available load_error | s env s' out _ IH Hp | s s' _ IH Hi].
  - intros H. discriminate.
  - exact (loop_pass_guarded env s s' out IH Hp).
  - destruct Hi; exact IH.
Qed.

(** X24.  Leaving the loop can wait for the worker: the sentinel is put on
    the frame queue with a waiting [put], so that in a reachable state
    [shutdown] blocks exactly while a frame is still in the queue.
    Otherwise the listener is stopped, the sentinel is the only item of the
    queue, and the next pass of the worker takes it and stops without
    reporting a result. *)
Theorem shutdown_waits_for_the_worker (Encoding : Type)
    (face_locations : Frame -> list box)
    (face_encodings : Frame -> list box -> list Encoding)
    (compare_faces : list Encoding -> Encoding -> list bool)
    (known_faces : known_faces_t Encoding) (rq : Queue (list face)) s :
  reachable s ->
  (shutdown s = WouldBlock <-> items (frame_queue s) <> [])
  /\ (items (frame_queue s) = [] ->
      exists s' evs,
        shutdown s = Ready (s', evs)
        /\ items (frame_queue s') = [None]
        /\ ASR.listening (asr_listener s') = false
        /\ recognize_faces_worker_pass Frame Encoding face_locations
             face_encodings compare_faces known_faces (frame_queue s') rq
           = Stopped Frame (mkQueue 1 [])).
Proof.
  intros R. destruct (reachable_capacities Frame s R) as (Mf & _ & _).
  unfold shutdown.
  destruct (ASR.stop_listening (asr_listener s)) as [l evs] eqn:St.
  assert (Ll : ASR.listening l = false).
  { unfold ASR.stop_listening in St.
    destruct (ASR.listening (asr_listener s)) eqn:L; injection St as <- _;
      [reflexivity|exact L]. }
  unfold put, full, qsize. rewrite Mf. cbn [Z.ltb Z.compare andb].
  destruct (items (frame_queue s)) as [|x rest] eqn:I.
  - cbn. split.
    + split; [discriminate|intros H; contradiction].
    + intros _. do 2 eexists. split; [reflexivity|].
      cbn [frame_queue asr_listener set_frame_queue set_asr_listener items].
      split; [reflexivity|]. split; [exact Ll|].
      unfold recognize_faces_worker_pass, get. cbn [items maxsize].
      reflexivity.
  - replace (1 <=? Z.of_nat (List.length (x :: rest)))%Z with true
      by (symmetry; apply Z.leb_le; cbn [List.length]; lia).
    split; [split; [discriminate|reflexivity]|intros H; discriminate].
Qed.

End GuardedConversation.

Section QuietPasses.

Import Main.
Variable Frame : Type.
Implicit Types s : loop_state Frame.
Implicit Types env : pass_env Frame.

(** X25.  With guard mode off and no recognized text waiting, a pass that
    captures a frame always continues: no key ends the loop (the window is
    closed and the pass only sleeps for a tenth of a second), no alert is
    raised, and all that can still happen is the timeout check. *)
Theorem unguarded_pass_continues env s (frame : Frame) s2 :
  guard_mode s = false ->
  items (ASR.text_queue (asr_listener s)) = [] ->
  capture env = Some frame ->
  acquire frame s = Ready s2 ->
  loop_pass env s
  = Continue (fst (check_timeout (clock_check env) s2))
      ([DestroyWindow; Sleep (1 # 10)]
       ++ snd (check_timeout (clock_check env) s2))
  /\ guard_mode (fst (check_timeout (clock_check env) s2)) = false.
Proof.
  intros G T Hc Ha.
  destruct (acquire_spec Frame frame s s2 Ha) as (_ & Hl & Hg & _).
  rewrite G in Hg.
  unfold loop_pass, pass_prefix. rewrite Hc, Ha.
  unfold guard_check. rewrite Hg. unfold display. rewrite Hg.
  rewrite speech_input_idle by (rewrite Hl; exact T).
  destruct (check_timeout_shape Frame (clock_check env) s2) as (m & mode & E).
  destruct (check_timeout (clock_check env) s2) as [s6 out6].
  cbn [fst snd app] in *. split; [reflexivity|].
  rewrite E. cbn [guard_mode set_conversation]. exact Hg.
Qed.

(** X26.  In a state where the manager's conversation is active, an
    utterance heard in conversation mode is entered in the history as the
    intruder's words, followed by the reply, which is the text handed to
    [text_to_speech_async]; the history before it is kept. *)
Theorem utterance_is_recorded (run : string -> LLM.generation) (now : Q)
    s (text : string) (rest : list string) :
  consistent s ->
  conversation_mode s = true ->
  items (ASR.text_queue (asr_listener s)) = text :: rest ->
  exists s' out reply,
    speech_input run now s = Continue s' out
    /\ LLM.conversation_history (conversation_manager s')
       = LLM.conversation_history (conversation_manager s)
         ++ [LLM.mkMessage LLM.intruder text;
             LLM.mkMessage LLM.assistant reply]
    /\ LLM.conversation_active (conversation_manager s') = true
    /\ In (SpeakAsync reply) out.
Proof.
  intros C M Hi.
  assert (E : empty (ASR.text_queue (asr_listener s)) = false).
  { apply not_true_iff_false. intros E. apply empty_items in E. congruence. }
  unfold speech_input, ASR.has_text. rewrite E. cbn [negb].
  unfold ASR.get_text, get_nowait. rewrite Hi.
  change (conversation_mode (set_asr_listener ?l s)) with (conversation_mode s).
  rewrite M. unfold intruder_reply.
  change (conversation_manager (set_asr_listener ?l s))
    with (conversation_manager s).
  destruct (process_active run (conversation_manager s) text (C M)) as [Hr Hm].
  pose proof (generate_response_history run (conversation_manager s) text) as Hh.
  destruct (LLM.process_intruder_response run (conversation_manager s) text)
    as [[reply m] evs].
  cbn [fst snd] in Hr, Hm. rewrite <- Hm, <- Hr in Hh.
  do 2 eexists. exists reply. split; [reflexivity|].
  cbn [conversation_manager set_conversation]. rewrite Hh.
  cbn [LLM.conversation_history LLM.conversation_active].
  split; [reflexivity|]. split; [exact (C M)|].
  apply in_or_app. right. apply in_or_app. right. apply in_or_app. right.
  right. left. reflexivity.
Qed.

End QuietPasses.

(* ================================================================== *)
(** * The further results on the sample runs *)

Lemma intruder_seen_is_reachable : Main.reachable Sample.intruder_seen.
Proof.
  apply Main.reach_interference with (s := Sample.guarding).
  - apply Main.reach_pass
      with (s := Sample.with_text "guard my room" Sample.start)
           (env := Sample.quiet 1 10)
           (out := Main.events_of
                     (Main.loop_pass (Sample.quiet 1 10)
                        (Sample.with_text "guard my room" Sample.start))).
    + apply Main.reach_interference with (s := Sample.start).
      * apply Main.reach_initial.
      * exact (Main.listener_puts nat Sample.start "guard my room"
                 (mkQueue 0 ["guard my room"%string]) eq_refl).
    + vm_compute. reflexivity.
  - exact (Main.worker_puts nat Sample.guarding
             [(Sample.a_box, "Unknown"%string)]
             (mkQueue 1 [[(Sample.a_box, "Unknown"%string)]]) eq_refl).
Qed.

Lemma challenged_is_reachable : Main.reachable Sample.challenged.
Proof.
  apply Main.reach_pass
    with (s := Sample.intruder_seen) (env := Sample.alert_pass)
         (out := Main.events_of
                   (Main.loop_pass Sample.alert_pass Sample.intruder_seen)).
  - exact intruder_seen_is_reachable.
  - vm_compute. reflexivity.
Qed.

(** X9 on a sample: two sentences are recognized around a clip that is not
    understood; the listener still listens. *)
Lemma worker_only_appends_witness :
  exists l' evs,
    ASR._listen_worker
      [Sample.hears "guard my room"; Sample.mumbles; Sample.hears "quit"]
      Sample.listener = Ready (l', evs)
    /\ ASR.listening l' = ASR.listening Sample.listener.
Proof.
  do 2 eexists. split; [vm_compute; reflexivity|].
  exact (proj1 (worker_only_appends
                  [Sample.hears "guard my room"; Sample.mumbles; Sample.hears "quit"]
                  Sample.listener _ _ eq_refl)).
Defined.

(** X10 on a sample: "a" then "b" are recognized and read in this order. *)
Lemma recognized_texts_are_delivered_in_order_witness :
  exists l' evs,
    ASR._listen_worker [Sample.hears "a"; Sample.hears "b"] Sample.listener
    = Ready (l', evs)
    /\ ASR.drain 2 l'
       = ([Some "a"%string; Some "b"%string],
          ASR.mkListener true (mkQueue 0 [])).
Proof.
  destruct (recognized_texts_are_delivered_in_order
              [Sample.hears "a"; Sample.hears "b"] ["a"%string; "b"%string]
              Sample.listener) as (l' & evs & E & _ & D & _).
  - constructor.
    + split; [discriminate|]. exists "pcm"%string. split; reflexivity.
    + constructor; [|constructor].
      split; [discriminate|]. exists "pcm"%string. split; reflexivity.
  - reflexivity.
  - reflexivity.
  - exists l', evs. split; [exact E|exact D].
Defined.

(** X15 on the toy data set: alice and bob, in the order of the listing. *)
Lemma known_faces_keep_listing_order_witness :
  exists known_faces out,
    FaceRecognition.load_known_faces Z Z (fun path => inl (Sample.toy_ls path))
      Sample.toy_isdir Sample.toy_load Sample.toy_face_encodings "dataset"
    = FaceRecognition.Return known_faces out
    /\ FaceRecognition.keys known_faces = ["alice"; "bob"]%string.
Proof.
  destruct (known_faces_keep_listing_order Z Z Sample.toy_ls Sample.toy_isdir
              Sample.toy_load Sample.toy_face_encodings "dataset")
    as (kf & out & E & K).
  - repeat constructor; cbn; intuition discriminate.
  - exists kf, out. split; [exact E|]. rewrite K. reflexivity.
Defined.

(** X16 on the toy data set: alice's second image is recognized as a person
    of the map. *)
Lemma enrolled_image_is_recognized_witness :
  exists known_faces out name encodings,
    FaceRecognition.load_known_faces Z Z (fun path => inl (Sample.toy_ls path))
      Sample.toy_isdir Sample.toy_load Sample.toy_face_encodings "dataset"
    = FaceRecognition.Return known_faces out
    /\ FaceRecognition.recognize_face Z Z Sample.toy_load
         Sample.toy_face_encodings Sample.toy_compare
         "dataset/alice/2.jpg" known_faces
       = FaceRecognition.Return (Some name) []
    /\ In (name, encodings) known_faces
    /\ FaceRecognition.any_match Z Sample.toy_compare encodings 1%Z = true.
Proof.
  apply (enrolled_image_is_recognized Z Z Sample.toy_ls Sample.toy_isdir
           Sample.toy_load Sample.toy_face_encodings Sample.toy_compare
           "dataset" "alice" "2.jpg" 1%Z).
  - intros encodings x H. unfold FaceRecognition.any_match, Sample.toy_compare.
    apply existsb_exists. exists true. split; [|reflexivity].
    apply in_map_iff. exists x. split; [|exact H].
    apply Z.leb_le. lia.
  - left. reflexivity.
  - reflexivity.
  - right. right. left. reflexivity.
  - reflexivity.
Defined.

(** X17 on the toy library: the probe is named "alice" both ways. *)
Lemma worker_names_as_recognize_face_witness :
  FaceRecognition.recognize_face Z Z Sample.toy_load Sample.toy_face_encodings
    Sample.toy_compare "probe.jpg" Sample.household
  = FaceRecognition.Return
      (Some (Main.name_of Z Sample.toy_compare Sample.household 5%Z)) [].
Proof.
  exact (worker_names_as_recognize_face Z Sample.toy_compare Z Sample.toy_load
           Sample.toy_face_encodings "probe.jpg" Sample.household 5%Z 5%Z []
           eq_refl eq_refl).
Defined.

(** X19 on the sample run. *)
Lemma queues_hold_at_most_one_witness :
  (List.length (items (Main.frame_queue Sample.intruder_seen)) <= 1)%nat
  /\ (List.length (items (Main.result_queue Sample.intruder_seen)) <= 1)%nat.
Proof.
  exact (queues_hold_at_most_one nat Sample.intruder_seen
           intruder_seen_is_reachable).
Defined.

(** X20 on a sample: two quiet passes, two frames. *)
Lemma frame_count_counts_passes_witness :
  exists s' out,
    Main.run_loop [Sample.quiet 1 10; Sample.quiet 2 20] Sample.start
    = Main.Continue s' out
    /\ Main.frame_count s' = 2%Z.
Proof.
  do 2 eexists. split; [vm_compute; reflexivity|].
  exact (proj1 (frame_count_counts_passes nat
                  [Sample.quiet 1 10; Sample.quiet 2 20] Sample.start _ _ eq_refl)).
Defined.

(** X22 on a sample: a quiet pass in guard mode keeps guard mode on. *)
Lemma guard_mode_needs_a_command_witness :
  exists s' out,
    Main.loop_pass (Sample.quiet 2 20) Sample.guarding = Main.Continue s' out
    /\ Main.guard_mode s' = Main.guard_mode Sample.guarding.
Proof.
  do 2 eexists. split; [vm_compute; reflexivity|].
  exact (proj1 (guard_mode_needs_a_command nat (Sample.quiet 2 20)
                  Sample.guarding _ _ (or_introl eq_refl) eq_refl)).
Defined.

(** X23 on the sample run: the challenged intruder is talked to in guard
    mode. *)
Lemma conversation_only_in_guard_mode_witness :
  Main.guard_mode Sample.challenged = true
  /\ LLM.is_conversation_active (Main.conversation_manager Sample.challenged)
     = true.
Proof.
  exact (conversation_only_in_guard_mode nat Sample.challenged
           challenged_is_reachable eq_refl).
Defined.

(** X24 on the state before the first pass: nothing is queued, the sentinel
    goes in and stops the worker. *)
Lemma shutdown_waits_for_the_worker_witness :
  exists s' evs,
    Main.shutdown Sample.start = Ready (s', evs)
    /\ items (Main.frame_queue s') = [None]
    /\ ASR.listening (Main.asr_listener s') = false
    /\ Main.recognize_faces_worker_pass nat Z Sample.toy_locations
         Sample.toy_encodings Sample.toy_compare Sample.household
         (Main.frame_queue s') Sample.result_unread
       = Main.Stopped nat (mkQueue 1 []).
Proof.
  exact (proj2 (shutdown_waits_for_the_worker nat Z Sample.toy_locations
                  Sample.toy_encodings Sample.toy_compare Sample.household
                  Sample.result_unread Sample.start
                  (Main.reach_initial nat false None)) eq_refl).
Defined.

(** X25 on a sample: the q key does not end an unguarded pass. *)
Lemma unguarded_pass_continues_witness :
  exists s' out,
    Main.loop_pass (Main.mkPassEnv (Some 1%nat) 10 113 10 10
                      (fun _ => LLM.GenerationFailed "no model"))
      Sample.start
    = Main.Continue s' ([DestroyWindow; Sleep (1 # 10)] ++ out)
    /\ Main.guard_mode s' = false.
Proof.
  destruct (unguarded_pass_continues nat
              (Main.mkPassEnv (Some 1%nat) 10 113 10 10
                 (fun _ => LLM.GenerationFailed "no model"))
              Sample.start 1%nat _ eq_refl eq_refl eq_refl eq_refl) as [E G].
  do 2 eexists. split; [exact E|exact G].
Defined.

(** X26 on a sample: "quit", said in a conversation, is entered in the
    history with its reply. *)
Lemma utterance_is_recorded_witness :
  exists s' out reply,
    Main.speech_input (fun _ => LLM.GenerationFailed "no model") 130
      (Sample.with_text "quit" Sample.in_conversation)
    = Main.Continue s' out
    /\ LLM.conversation_history (Main.conversation_manager s')
       = [LLM.mkMessage LLM.assistant LLM.opening]
         ++ [LLM.mkMessage LLM.intruder "quit";
             LLM.mkMessage LLM.assistant reply]
    /\ LLM.conversation_active (Main.conversation_manager s') = true
    /\ In (SpeakAsync reply) out.
Proof.
  exact (utterance_is_recorded nat (fun _ => LLM.GenerationFailed "no model") 130
           (Sample.with_text "quit" Sample.in_conversation) "quit" []
           (fun _ => eq_refl) eq_refl eq_refl).
Defined.

(* ================================================================== *)
(** * Further results: timeouts and summaries *)

Section AnsweredInTime.

Import Main.
Variable Frame : Type.
Implicit Types s : loop_state Frame.

(** X27.  An intruder who answers gets another 60 seconds: after an
    utterance heard in conversation mode at time [now], the timeout check
    does nothing, it ends no conversation and speaks no warning, as long as
    the clock does not read more than [now + 60]. *)
Theorem answer_postpones_the_timeout (run : string -> LLM.generation)
    (now later : Q) s (text : string) (rest : list string) s' out :
  conversation_mode s = true ->
  items (ASR.text_queue (asr_listener s)) = text :: rest ->
  speech_input run now s = Continue s' out ->
  (later <= now + 60)%Q ->
  conversation_timeout s' = (now + 60)%Q
  /\ check_timeout later s' = (s', []).
Proof.
  intros M Hi Hs Hl.
  assert (E : empty (ASR.text_queue (asr_listener s)) = false).
  { apply not_true_iff_false. intros E. apply empty_items in E. congruence. }
  unfold speech_input, ASR.has_text in Hs. rewrite E in Hs. cbn [negb] in Hs.
  unfold ASR.get_text, get_nowait in Hs. rewrite Hi in Hs.
  change (conversation_mode (set_asr_listener ?l s))
    with (conversation_mode s) in Hs.
  rewrite M in Hs. unfold intruder_reply in Hs.
  destruct (LLM.process_intruder_response _ _ _) as [[reply m] evs].
  injection Hs as <- _. cbn [conversation_timeout set_conversation].
  split; [reflexivity|]. unfold check_timeout.
  cbn [conversation_mode conversation_timeout set_conversation set_asr_listener].
  replace (Qgtb later (now + 60)) with false; [rewrite andb_false_r; reflexivity|].
  symmetry. unfold Qgtb. apply negb_false_iff. apply Qle_bool_iff. exact Hl.
Qed.

End AnsweredInTime.

(** X27 on a sample: an answer at 130 keeps the conversation alive at 190. *)
Lemma answer_postpones_the_timeout_witness :
  exists s' out,
    Main.speech_input (fun _ => LLM.GenerationFailed "no model") 130
      (Sample.with_text "quit" Sample.in_conversation)
    = Main.Continue s' out
    /\ Main.check_timeout 190 s' = (s', []).
Proof.
  do 2 eexists. split; [vm_compute; reflexivity|].
  refine (proj2 (answer_postpones_the_timeout nat
                   (fun _ => LLM.GenerationFailed "no model") 130 190
                   (Sample.with_text "quit" Sample.in_conversation) "quit" []
                   _ _ eq_refl eq_refl eq_refl _)).
  unfold Qle. cbn. lia.
Defined.

Section SummaryFacts.

Import LLM.
Local Open Scope string_scope.

Lemma append_assoc (a b c : string) : (a ++ b) ++ c = a ++ (b ++ c).
Proof.
  induction a as [|x a IH]; cbn; [reflexivity|]. rewrite IH. reflexivity.
Qed.

Lemma summary_lines_app (h1 h2 : list message) : forall i,
  summary_lines i (h1 ++ h2)%list
  = summary_lines i h1 ++ summary_lines (i + List.length h1) h2.
Proof.
  induction h1 as [|msg h1 IH]; intros i.
  - cbn [app summary_lines List.length append]. rewrite Nat.add_0_r. reflexivity.
  - cbn [app summary_lines List.length]. rewrite IH.
    rewrite !append_assoc. rewrite Nat.add_succ_r. reflexivity.
Qed.

Lemma summary_of_history (m : Manager) :
  conversation_history m <> [] ->
  get_conversation_summary m
  = "Conversation Summary:" ++ PyStr.newline
    ++ summary_lines 1 (conversation_history m).
Proof.
  unfold get_conversation_summary.
  destruct (conversation_history m); [contradiction|reflexivity].
Qed.

(** X28.  The summary of a conversation grows with it: processing an
    utterance in an active conversation leaves the lines of the earlier
    entries as they were and adds two lines, numbered on from there, one
    with the intruder's words and one with the reply. *)
Theorem summary_grows_by_two_lines (run : string -> generation) (m : Manager)
    (text : string) :
  conversation_active m = true ->
  conversation_history m <> [] ->
  let reply := fst (fst (process_intruder_response run m text)) in
  let m' := snd (fst (process_intruder_response run m text)) in
  let n := List.length (conversation_history m) in
  get_conversation_summary m'
  = get_conversation_summary m
    ++ PyStr.of_nat (n + 1) ++ ". Intruder: " ++ text ++ PyStr.newline
    ++ PyStr.of_nat (n + 2) ++ ". Security AI: " ++ reply ++ PyStr.newline.
Proof.
  intros A N. cbv zeta.
  destruct (process_active run m text A) as [-> ->].
  rewrite generate_response_history.
  rewrite (summary_of_history m N), summary_of_history.
  2:{ cbn [conversation_history]. intros H. apply app_eq_nil in H.
      destruct H as [_ H]. discriminate. }
  cbn [conversation_history]. rewrite summary_lines_app.
  cbn [summary_lines msg_role content].
  rewrite !append_assoc.
  replace (1 + List.length (conversation_history m))%nat
    with (List.length (conversation_history m) + 1)%nat by lia.
  replace (S (List.length (conversation_history m) + 1))%nat
    with (List.length (conversation_history m) + 2)%nat by lia.
  reflexivity.
Qed.

End SummaryFacts.

(** X28 on a sample: the first exchange gives lines 2 and 3. *)
Lemma summary_grows_by_two_lines_witness :
  LLM.get_conversation_summary
    (snd (fst (LLM.process_intruder_response
                 (fun _ => LLM.GenerationFailed "no model")
                 (Main.conversation_manager Sample.in_conversation) "hello")))
  = (LLM.get_conversation_summary
       (Main.conversation_manager Sample.in_conversation)
     ++ "2. Intruder: hello" ++ PyStr.newline
     ++ "3. Security AI: Hello. This is a restricted area. Who are you and why are you here?"
     ++ PyStr.newline)%string.
Proof.
  apply (summary_grows_by_two_lines (fun _ => LLM.GenerationFailed "no model")
           (Main.conversation_manager Sample.in_conversation) "hello").
  - reflexivity.
  - discriminate.
Defined.
